(** * The grid game session server (server/src/index.js)

    A shallow embedding of the in-memory game session: the module-level
    variables of the server become one [State] record, every Socket.IO
    handler and timer callback becomes a function on that record which also
    returns the messages it emits, and the two [setInterval] timers become
    entries of a table of live timers that [Tick] events fire.  The
    development follows src/index.js; the second source file, the same
    server with a fixed admin entry, is embedded in [StaticAdmin].

    Modelling conventions:
    - socket ids, names and colours are Rocq strings ([substring] counts
      characters, so names are taken to be ASCII);
    - [squareId] is an integer ([Z]); the grid is a JavaScript array, with
      its holes and its non-index properties written out;
    - the [scores] object is a finite map from ids to counts: ids are
      connection ids, never names of inherited object properties;
    - [Math.random] is an input: the [joinGame] event carries the draws the
      handler consumes. *)

From stdpp Require Import base strings list gmap pretty.
From Stdlib Require Import ZArith Lia.

Local Open Scope string_scope.
Local Open Scope list_scope.

(** ** Data model *)

(** What [getCountryFromIP] returns for a connection. *)
Record Country := { code : string; country_name : string }.

(** The part of a connection the handlers close over: [socket.id] and the
    [country] computed once when the connection is made. *)
Record Socket := { socket_id : string; socket_country : Country }.

Module Player.

(** A player object.  [ref] is the identity of the JavaScript object (it is
    not a property): [winner] may alias an object of the roster, and two
    roster entries may agree on every property. *)
Record t := mk {
  ref : nat;
  id : string;
  name : string;
  color : string;
  score : nat;
  country : Country
}.

Definition with_score (n : nat) (p : t) : t :=
  mk (ref p) (id p) (name p) (color p) n (country p).

Definition with_color (c : string) (p : t) : t :=
  mk (ref p) (id p) (name p) c (score p) (country p).

End Player.

Module Cell.

Record t := mk {
  id : Z;
  color : string;
  ownerId : string;
  ownerName : string
}.

End Cell.

(** The value of the variable [winner]: [null], [undefined] (what
    [players.find] returns when nothing matches), a player object, or the
    object literal built by [endGame] when there is no admin. *)
Inductive Winner :=
| WNull
| WUndefined
| WPlayer (p : Player.t)
| WLiteral (id name color : string) (score : nat).

(** ** JavaScript arrays of cells *)

(** [elems] are the indexed elements ([None] is a hole), [props] the
    properties whose key is not an array index. *)
Record JsArray := { elems : list (option Cell.t); props : list (Z * Cell.t) }.

(** An integer is an array index when it lies in [0, 2^32 - 2]. *)
Definition is_index (k : Z) : bool :=
  bool_decide (0 ≤ k)%Z && bool_decide (k < 2 ^ 32 - 1)%Z.

Fixpoint prop_set (k : Z) (v : Cell.t) (ps : list (Z * Cell.t)) : list (Z * Cell.t) :=
  match ps with
  | [] => [(k, v)]
  | (k', v') :: ps' =>
      if bool_decide (k' = k) then (k, v) :: ps' else (k', v') :: prop_set k v ps'
  end.

(** [a[k] = v]: an index inside the array overwrites the element, an index
    past the end extends the array leaving holes, any other integer sets a
    plain property. *)
Definition arr_set (k : Z) (v : Cell.t) (a : JsArray) : JsArray :=
  if is_index k then
    let i := Z.to_nat k in
    {| elems :=
         if bool_decide (i < length (elems a)) then <[i := Some v]> (elems a)
         else elems a ++ replicate (i - length (elems a)) None ++ [Some v];
       props := props a |}
  else {| elems := elems a; props := prop_set k v (props a) |}.

(** [a.map(f)]: a new array of the same length; holes stay holes and
    non-index properties are not copied. *)
Definition arr_map (f : Cell.t → nat → Cell.t) (a : JsArray) : JsArray :=
  {| elems := imap (λ i o, (λ sq, f sq i) <$> o) (elems a); props := [] |}.

(** The elements [a.forEach] visits, in order. *)
Definition arr_present (a : JsArray) : list Cell.t := omap (λ o, o) (elems a).

(** ** Messages sent to clients *)

Record Snapshot := {
  snap_grid : JsArray;
  snap_players : list Player.t;
  snap_timeLeft : Z;
  snap_countdown : option Z;
  snap_winner : Winner
}.

Record JoinResult := { success : bool; message : option string }.

Inductive Output :=
| Broadcast (payload : Snapshot)              (* io.emit('gameState', ...) *)
| EmitGameState (to : string) (payload : Snapshot)
| EmitAdminStatus (to : string) (isAdmin : bool)
| Callback (result : JoinResult).

(** ** Session state *)

Inductive TimerKind := GameTimer | CountdownTimer.

(** The module-level variables, and the runtime's table of live interval
    timers ([timers], with the next handle [nextTimer]) and its object
    allocator ([nextRef]). *)
Record State := {
  players : list Player.t;
  grid : JsArray;
  timeLeft : Z;
  gameInterval : option nat;
  winner : Winner;
  countdown : option Z;
  adminId : option string;
  timers : list (nat * TimerKind);
  nextTimer : nat;
  nextRef : nat
}.

Definition set_players (v : list Player.t) (s : State) : State :=
  {| players := v; grid := grid s; timeLeft := timeLeft s;
     gameInterval := gameInterval s; winner := winner s;
     countdown := countdown s; adminId := adminId s; timers := timers s;
     nextTimer := nextTimer s; nextRef := nextRef s |}.

Definition set_grid (v : JsArray) (s : State) : State :=
  {| players := players s; grid := v; timeLeft := timeLeft s;
     gameInterval := gameInterval s; winner := winner s;
     countdown := countdown s; adminId := adminId s; timers := timers s;
     nextTimer := nextTimer s; nextRef := nextRef s |}.

Definition set_timeLeft (v : Z) (s : State) : State :=
  {| players := players s; grid := grid s; timeLeft := v;
     gameInterval := gameInterval s; winner := winner s;
     countdown := countdown s; adminId := adminId s; timers := timers s;
     nextTimer := nextTimer s; nextRef := nextRef s |}.

Definition set_gameInterval (v : option nat) (s : State) : State :=
  {| players := players s; grid := grid s; timeLeft := timeLeft s;
     gameInterval := v; winner := winner s;
     countdown := countdown s; adminId := adminId s; timers := timers s;
     nextTimer := nextTimer s; nextRef := nextRef s |}.

Definition set_winner (v : Winner) (s : State) : State :=
  {| players := players s; grid := grid s; timeLeft := timeLeft s;
     gameInterval := gameInterval s; winner := v;
     countdown := countdown s; adminId := adminId s; timers := timers s;
     nextTimer := nextTimer s; nextRef := nextRef s |}.

Definition set_countdown (v : option Z) (s : State) : State :=
  {| players := players s; grid := grid s; timeLeft := timeLeft s;
     gameInterval := gameInterval s; winner := winner s;
     countdown := v; adminId := adminId s; timers := timers s;
     nextTimer := nextTimer s; nextRef := nextRef s |}.

Definition set_adminId (v : option string) (s : State) : State :=
  {| players := players s; grid := grid s; timeLeft := timeLeft s;
     gameInterval := gameInterval s; winner := winner s;
     countdown := countdown s; adminId := v; timers := timers s;
     nextTimer := nextTimer s; nextRef := nextRef s |}.

Definition set_timers (v : list (nat * TimerKind)) (s : State) : State :=
  {| players := players s; grid := grid s; timeLeft := timeLeft s;
     gameInterval := gameInterval s; winner := winner s;
     countdown := countdown s; adminId := adminId s; timers := v;
     nextTimer := nextTimer s; nextRef := nextRef s |}.

Definition set_nextTimer (v : nat) (s : State) : State :=
  {| players := players s; grid := grid s; timeLeft := timeLeft s;
     gameInterval := gameInterval s; winner := winner s;
     countdown := countdown s; adminId := adminId s; timers := timers s;
     nextTimer := v; nextRef := nextRef s |}.

Definition set_nextRef (v : nat) (s : State) : State :=
  {| players := players s; grid := grid s; timeLeft := timeLeft s;
     gameInterval := gameInterval s; winner := winner s;
     countdown := countdown s; adminId := adminId s; timers := timers s;
     nextTimer := nextTimer s; nextRef := v |}.

(** The cell a reset writes at [index]: white and unowned. *)
Definition blank (index : nat) : Cell.t :=
  Cell.mk (Z.of_nat index) "#FFFFFF" "" "".

(** The admin square the module writes at start-up. *)
Definition admin_square : Cell.t := Cell.mk 0 "#000000" "admin" "Admin".

(** [Array(100).fill(null).map(...)] followed by [grid[0] = ...]. *)
Definition initial_grid : JsArray :=
  arr_set 0 admin_square
    {| elems := imap (λ i _, Some (blank i)) (replicate 100 ()); props := [] |}.

Definition initial_state : State :=
  {| players := []; grid := initial_grid; timeLeft := 60;
     gameInterval := None; winner := WNull; countdown := None;
     adminId := None; timers := []; nextTimer := 0; nextRef := 0 |}.

(** ** Handlers: state passing with emitted messages *)

(** A piece of a handler takes the state to the new state and the messages
    it emits, in order. *)
Definition Action (S O : Type) : Type := S → S * list O.

Definition modify {S O} (f : S → S) : Action S O := λ s, (f s, []).

Definition emit {S O} (o : O) : Action S O := λ s, (s, [o]).

Definition andThen {S O} (f g : Action S O) : Action S O :=
  λ s, let r1 := f s in let r2 := g r1.1 in (r2.1, r1.2 ++ r2.2).

Infix ">>>" := andThen (at level 61, left associativity).

Definition when {S O} (c : S → bool) (f : Action S O) : Action S O :=
  λ s, if c s then f s else (s, []).

Definition ifElse {S O} (c : S → bool) (f g : Action S O) : Action S O :=
  λ s, if c s then f s else g s.

Definition Handler : Type := Action State Output.

(** JavaScript truthiness of a string or of a nullable id. *)
Definition truthy (x : string) : bool := negb (bool_decide (x = "")).

Definition truthy_id (x : option string) : bool :=
  match x with Some i => truthy i | None => false end.

(** [x || d] on strings. *)
Definition or_else (x d : string) : string := if truthy x then x else d.

(** [clearInterval(h)]; clearing [null] or a dead handle does nothing. *)
Definition clearInterval (h : option nat) (s : State) : State :=
  set_timers
    (match h with
     | Some n => List.filter (λ t, negb (bool_decide (t.1 = n))) (timers s)
     | None => timers s
     end) s.

(** [setInterval(callback, 1000)]: the new handle and the state with the
    timer live; [kind] names the callback. *)
Definition setInterval (kind : TimerKind) (s : State) : nat * State :=
  (nextTimer s,
   set_nextTimer (S (nextTimer s)) (set_timers (timers s ++ [(nextTimer s, kind)]) s)).

Definition snapshot (s : State) : Snapshot :=
  {| snap_grid := grid s; snap_players := players s; snap_timeLeft := timeLeft s;
     snap_countdown := countdown s; snap_winner := winner s |}.

Definition broadcastGameState : Handler := λ s, (s, [Broadcast (snapshot s)]).

(** After objects of the roster were updated in place, [winner] shows the
    update when it is one of them (same object). *)
Definition sync_winner (s : State) : State :=
  set_winner
    (match winner s with
     | WPlayer w =>
         match List.find (λ p, bool_decide (Player.ref p = Player.ref w)) (players s) with
         | Some p => WPlayer p
         | None => WPlayer w
         end
     | w => w
     end) s.

(** [scores[square.ownerId] = (scores[square.ownerId] || 0) + 1], guarded by
    [if (square.ownerId)]. *)
Definition count_square (scores : gmap string nat) (square : Cell.t) : gmap string nat :=
  if truthy (Cell.ownerId square)
  then <[Cell.ownerId square := default 0 (scores !! Cell.ownerId square) + 1]> scores
  else scores.

Definition tally (init : gmap string nat) (g : JsArray) : gmap string nat :=
  foldl count_square init (arr_present g).

(** [player.score = scores[player.id] || 0] *)
Definition read_score (scores : gmap string nat) (p : Player.t) : Player.t :=
  Player.with_score (default 0 (scores !! Player.id p)) p.

Definition calculateScores : Handler :=
  modify (λ s,
    let scores := tally ∅ (grid s) in
    sync_winner (set_players (read_score scores <$> players s) s)).

(** ** Rounds: [startGameTimer] and [endGame] *)

(** [player.score = player.id === adminId ? 1 : 0] *)
Definition reset_score (admin : option string) (p : Player.t) : Player.t :=
  Player.with_score (if bool_decide (Some (Player.id p) = admin) then 1 else 0) p.

Definition find_by_id (i : option string) (ps : list Player.t) : option Player.t :=
  List.find (λ p, bool_decide (Some (Player.id p) = i)) ps.

(** [players.find((p) => p.id === adminId)?.name || 'Admin'] *)
Definition admin_name (s : State) : string :=
  match find_by_id (adminId s) (players s) with
  | Some p => or_else (Player.name p) "Admin"
  | None => "Admin"
  end.

(** The callback of [grid.map] in [startGameTimer]. *)
Definition reset_square (s : State) (square : Cell.t) (index : nat) : Cell.t :=
  if bool_decide (index = 0) then
    Cell.mk 0 "#000000"
      (match adminId s with Some a => or_else a "admin" | None => "admin" end)
      (if truthy_id (adminId s) then admin_name s else "Admin")
  else blank index.

Definition startGameTimer : Handler :=
  modify (λ s, clearInterval (gameInterval s) s) >>>
  modify (set_timeLeft 60) >>>
  modify (set_winner WNull) >>>
  modify (set_countdown None) >>>
  modify (λ s, set_players (reset_score (adminId s) <$> players s) s) >>>
  modify (λ s, set_grid (arr_map (reset_square s) (grid s)) s) >>>
  broadcastGameState >>>
  modify (λ s, let '(h, s') := setInterval GameTimer s in set_gameInterval (Some h) s').

(** The loop of [endGame] that looks for the highest score: the state of
    [maxScore] and [winningPlayer] after visiting one more player. *)
Definition best_step (acc : nat * option Player.t) (player : Player.t)
  : nat * option Player.t :=
  if bool_decide (acc.1 < Player.score player)
  then (Player.score player, Some player) else acc.

Definition winningPlayer (ps : list Player.t) : option Player.t :=
  (foldl best_step (0, None) ps).2.

(** The value [endGame] leaves in [winner]. *)
Definition pick_winner (s : State) : Winner :=
  match winningPlayer (players s) with
  | Some p => WPlayer p
  | None =>
      if truthy_id (adminId s) then
        match find_by_id (adminId s) (players s) with
        | Some p => WPlayer p
        | None => WUndefined
        end
      else WLiteral "admin" "Admin" "#000000" 1
  end.

(** [scores[player.id] = 0] for every player *)
Definition zero_scores (ps : list Player.t) : gmap string nat :=
  foldl (λ scores p, <[Player.id p := 0]> scores) ∅ ps.

(** [endGame]; the countdown interval it creates is known to its own
    callback only. *)
Definition endGame : Handler :=
  modify (λ s, clearInterval (gameInterval s) s) >>>
  modify (λ s,
    let scores := tally (zero_scores (players s)) (grid s) in
    set_players (read_score scores <$> players s) s) >>>
  modify (λ s, set_winner (pick_winner s) s) >>>
  broadcastGameState >>>
  modify (set_countdown (Some 10%Z)) >>>
  modify (λ s, (setInterval CountdownTimer s).2).

(** The callback of the game interval. *)
Definition gameTick : Handler :=
  modify (λ s, set_timeLeft (timeLeft s - 1) s) >>>
  ifElse (λ s, bool_decide (timeLeft s ≤ 0)%Z) endGame broadcastGameState.

(** [countdown--]; decrementing [null] gives [-1]. *)
Definition decrement (c : option Z) : Z :=
  match c with Some n => n - 1 | None => -1 end.

Definition nonpositive (c : option Z) : bool :=
  match c with Some n => bool_decide (n ≤ 0)%Z | None => true end.

(** The callback of the countdown interval whose handle is
    [countdownInterval]. *)
Definition countdownTick (countdownInterval : nat) : Handler :=
  modify (λ s, set_countdown (Some (decrement (countdown s))) s) >>>
  broadcastGameState >>>
  when (λ s, nonpositive (countdown s))
    (modify (clearInterval (Some countdownInterval)) >>> startGameTimer).

Definition timer_kind (h : nat) (ts : list (nat * TimerKind)) : option TimerKind :=
  snd <$> List.find (λ t, bool_decide (t.1 = h)) ts.

(** The interval with handle [h] fires: a dead handle never does. *)
Definition tick (h : nat) : Handler :=
  λ s, match timer_kind h (timers s) with
       | Some GameTimer => gameTick s
       | Some CountdownTimer => countdownTick h s
       | None => (s, [])
       end.

(** ** Connection handlers *)

Definition connection (socket : Socket) : Handler :=
  ifElse (λ s, bool_decide (length (players s) = 0) && negb (truthy_id (adminId s)))
    (modify (set_adminId (Some (socket_id socket))) >>>
     emit (EmitAdminStatus (socket_id socket) true))
    (emit (EmitAdminStatus (socket_id socket) false)) >>>
  (λ s, (s, [EmitGameState (socket_id socket) (snapshot s)])).

Record JoinData := { data_name : string; data_color : string }.

(** One call of [generateRandomColor]: the three numbers it draws. *)
Record Draw := { hue : nat; saturation : nat; lightness : nat }.

Definition generateRandomColor (d : Draw) : string :=
  "hsl(" +:+ pretty (hue d) +:+ ", " +:+ pretty (saturation d) +:+ "%, "
         +:+ pretty (lightness d) +:+ "%)".

(** [while (players.some((p) => p.color === c)) c = generateRandomColor()]:
    [None] when the draws run out before the loop ends. *)
Fixpoint redraw (ps : list Player.t) (c : string) (draws : list Draw) : option string :=
  if existsb (λ p, bool_decide (Player.color p = c)) ps then
    match draws with
    | [] => None
    | d :: rest => redraw ps (generateRandomColor d) rest
    end
  else Some c.

Definition name_taken : string :=
  "This name is already taken. Please choose a different one.".

(** The object [joinGame] pushes, after the admin and colour adjustments. *)
Definition new_player (socket : Socket) (data : JoinData) (draws : list Draw)
    (s : State) : option Player.t :=
  let newPlayer :=
    Player.mk (nextRef s) (socket_id socket) (String.substring 0 15 (data_name data))
      (data_color data) 0 (socket_country socket) in
  if bool_decide (Some (socket_id socket) = adminId s) then
    Some (Player.with_score 1 (Player.with_color "#000000" newPlayer))
  else if bool_decide (Player.color newPlayer = "#000000") then
    match draws with
    | [] => None
    | d :: rest =>
        c ← redraw (players s) (generateRandomColor d) rest;
        Some (Player.with_color c newPlayer)
    end
  else Some newPlayer.

Definition is_null (o : option nat) : bool :=
  match o with Some _ => false | None => true end.

(** [None]: the colour loop has not ended within the given draws. *)
Definition joinGame (socket : Socket) (data : JoinData) (draws : list Draw)
    (s : State) : option (State * list Output) :=
  match List.find (λ p, bool_decide (Player.name p = data_name data)) (players s) with
  | Some _ => Some (s, [Callback {| success := false; message := Some name_taken |}])
  | None =>
      newPlayer ← new_player socket data draws s;
      Some ((modify (λ s, set_nextRef (S (nextRef s))
                            (set_players (players s ++ [newPlayer]) s)) >>>
             when (λ s, is_null (gameInterval s)) startGameTimer >>>
             calculateScores >>>
             broadcastGameState >>>
             emit (Callback {| success := true; message := None |})) s)
  end.

Definition winner_is_null (w : Winner) : bool :=
  match w with WNull => true | _ => false end.

(** The cell an accepted claim writes. *)
Definition claimed (squareId : Z) (player : Player.t) : Cell.t :=
  Cell.mk squareId (Player.color player) (Player.id player) (Player.name player).

Definition claimSquare (socket : Socket) (squareId : Z) : Handler :=
  λ s,
  if negb (bool_decide (countdown s = None)) || negb (winner_is_null (winner s))
  then (s, [])
  else
    match find_by_id (Some (socket_id socket)) (players s) with
    | None => (s, [])
    | Some player =>
        if bool_decide (squareId = 0%Z)
           && negb (bool_decide (Some (socket_id socket) = adminId s))
        then (s, [])
        else
          (modify (λ s, set_grid (arr_set squareId (claimed squareId player) (grid s)) s) >>>
           calculateScores >>>
           broadcastGameState) s
    end.

(** Update in place the object [players.find(test)] returns. *)
Fixpoint mutate_found (test : Player.t → bool) (f : Player.t → Player.t)
    (ps : list Player.t) : list Player.t :=
  match ps with
  | [] => []
  | p :: ps' => if test p then f p :: ps' else p :: mutate_found test f ps'
  end.

(** The promotion of a new admin inside the disconnect handler. *)
Definition promote : Handler :=
  modify (λ s,
    set_adminId (match players s with p :: _ => Some (Player.id p) | [] => None end) s) >>>
  (λ s,
    if truthy_id (adminId s) then
      match find_by_id (adminId s) (players s) with
      | Some adminPlayer =>
          (modify (λ s, sync_winner
                     (set_players
                        (mutate_found (λ p, bool_decide (Some (Player.id p) = adminId s))
                           (Player.with_color "#000000") (players s)) s)) >>>
           modify (λ s, set_grid
                     (arr_set 0
                        (Cell.mk 0 "#000000" (default "" (adminId s))
                           (Player.name adminPlayer))
                        (grid s)) s) >>>
           emit (EmitAdminStatus (default "" (adminId s)) true)) s
      | None => (s, [])
      end
    else (s, [])).

(** The callback of [grid.map] when the last player has left. *)
Definition initial_square (square : Cell.t) (index : nat) : Cell.t :=
  if bool_decide (index = 0) then admin_square else blank index.

(** [players.filter((player) => player.id !== socket.id)] *)
Definition others (socket : Socket) (s : State) : list Player.t :=
  List.filter (λ player, negb (bool_decide (Player.id player = socket_id socket)))
    (players s).

Definition disconnect (socket : Socket) : Handler :=
  modify (λ s, set_players (others socket s) s) >>>
  when (λ s, bool_decide (Some (socket_id socket) = adminId s)) promote >>>
  ifElse (λ s, bool_decide (length (players s) = 0))
    (modify (λ s, clearInterval (gameInterval s) s) >>>
     modify (set_gameInterval None) >>>
     modify (set_timeLeft 60) >>>
     modify (set_winner WNull) >>>
     modify (set_countdown None) >>>
     modify (λ s, set_grid (arr_map initial_square (grid s)) s))
    calculateScores >>>
  broadcastGameState.

(** ** Events *)

Inductive Event :=
| Connection (socket : Socket)
| JoinGame (socket : Socket) (data : JoinData) (draws : list Draw)
| ClaimSquare (socket : Socket) (squareId : Z)
| Disconnect (socket : Socket)
| Tick (handle : nat).

Definition step (e : Event) (s : State) : option (State * list Output) :=
  match e with
  | Connection socket => Some (connection socket s)
  | JoinGame socket data draws => joinGame socket data draws s
  | ClaimSquare socket squareId => Some (claimSquare socket squareId s)
  | Disconnect socket => Some (disconnect socket s)
  | Tick h => Some (tick h s)
  end.

(** Handle the events in order, from [s]. *)
Fixpoint run (es : list Event) (s : State) : option State :=
  match es with
  | [] => Some s
  | e :: es' =>
      match step e s with
      | Some (s', _) => run es' s'
      | None => None
      end
  end.

(** ** The variant with a fixed admin entry (src/unnamed/part_000)

    The second source file is the same server without [adminId]: the admin
    is a fixed entry of the roster, with id ['admin'], that no connection
    holds.  Cells, arrays, timers and the pieces of handlers are those of
    above; the player objects, the state and the handlers are its own. *)

(** [s.toLowerCase()], on ASCII letters. *)
Definition lower_ascii (c : Ascii.ascii) : Ascii.ascii :=
  let n := Ascii.nat_of_ascii c in
  if (65 <=? n)%nat && (n <=? 90)%nat then Ascii.ascii_of_nat (n + 32) else c.

Fixpoint toLowerCase (s : string) : string :=
  match s with
  | EmptyString => EmptyString
  | String c s' => String (lower_ascii c) (toLowerCase s')
  end.

Module StaticAdmin.

Module Player.

(** A player object of this variant; [adminPlayer] has no [country]. *)
Record t := mk {
  ref : nat;
  id : string;
  name : string;
  color : string;
  score : nat;
  country : option Country;
  isAdmin : bool
}.

Definition with_score (n : nat) (p : t) : t :=
  mk (ref p) (id p) (name p) (color p) n (country p) (isAdmin p).

End Player.

Definition adminPlayer : Player.t :=
  Player.mk 0 "admin" "Admin" "#000000" 1 None true.

Record Snapshot := {
  snap_grid : JsArray;
  snap_players : list Player.t;
  snap_timeLeft : Z;
  snap_countdown : option Z;
  snap_winner : option Player.t
}.

Inductive Output :=
| Broadcast (payload : Snapshot)
| EmitGameState (to : string) (payload : Snapshot)
| Callback (result : JoinResult).

Record State := {
  players : list Player.t;
  grid : JsArray;
  timeLeft : Z;
  gameInterval : option nat;
  winner : option Player.t;
  countdown : option Z;
  timers : list (nat * TimerKind);
  nextTimer : nat;
  nextRef : nat
}.

Definition set_players (v : list Player.t) (s : State) : State :=
  {| players := v; grid := grid s; timeLeft := timeLeft s;
     gameInterval := gameInterval s; winner := winner s; countdown := countdown s;
     timers := timers s; nextTimer := nextTimer s; nextRef := nextRef s |}.

Definition set_grid (v : JsArray) (s : State) : State :=
  {| players := players s; grid := v; timeLeft := timeLeft s;
     gameInterval := gameInterval s; winner := winner s; countdown := countdown s;
     timers := timers s; nextTimer := nextTimer s; nextRef := nextRef s |}.

Definition set_timeLeft (v : Z) (s : State) : State :=
  {| players := players s; grid := grid s; timeLeft := v;
     gameInterval := gameInterval s; winner := winner s; countdown := countdown s;
     timers := timers s; nextTimer := nextTimer s; nextRef := nextRef s |}.

Definition set_gameInterval (v : option nat) (s : State) : State :=
  {| players := players s; grid := grid s; timeLeft := timeLeft s;
     gameInterval := v; winner := winner s; countdown := countdown s;
     timers := timers s; nextTimer := nextTimer s; nextRef := nextRef s |}.

Definition set_winner (v : option Player.t) (s : State) : State :=
  {| players := players s; grid := grid s; timeLeft := timeLeft s;
     gameInterval := gameInterval s; winner := v; countdown := countdown s;
     timers := timers s; nextTimer := nextTimer s; nextRef := nextRef s |}.

Definition set_countdown (v : option Z) (s : State) : State :=
  {| players := players s; grid := grid s; timeLeft := timeLeft s;
     gameInterval := gameInterval s; winner := winner s; countdown := v;
     timers := timers s; nextTimer := nextTimer s; nextRef := nextRef s |}.

Definition set_timers (v : list (nat * TimerKind)) (s : State) : State :=
  {| players := players s; grid := grid s; timeLeft := timeLeft s;
     gameInterval := gameInterval s; winner := winner s; countdown := countdown s;
     timers := v; nextTimer := nextTimer s; nextRef := nextRef s |}.

Definition set_nextTimer (v : nat) (s : State) : State :=
  {| players := players s; grid := grid s; timeLeft := timeLeft s;
     gameInterval := gameInterval s; winner := winner s; countdown := countdown s;
     timers := timers s; nextTimer := v; nextRef := nextRef s |}.

Definition set_nextRef (v : nat) (s : State) : State :=
  {| players := players s; grid := grid s; timeLeft := timeLeft s;
     gameInterval := gameInterval s; winner := winner s; countdown := countdown s;
     timers := timers s; nextTimer := nextTimer s; nextRef := v |}.

(** The module pushes [adminPlayer] at start-up; its object is number 0. *)
Definition initial_state : State :=
  {| players := [adminPlayer]; grid := initial_grid; timeLeft := 60;
     gameInterval := None; winner := None; countdown := None;
     timers := []; nextTimer := 0; nextRef := 1 |}.

Definition Handler : Type := Action State Output.

Definition clearInterval (h : option nat) (s : State) : State :=
  set_timers
    (match h with
     | Some n => List.filter (λ t, negb (bool_decide (t.1 = n))) (timers s)
     | None => timers s
     end) s.

Definition setInterval (kind : TimerKind) (s : State) : nat * State :=
  (nextTimer s,
   set_nextTimer (S (nextTimer s)) (set_timers (timers s ++ [(nextTimer s, kind)]) s)).

Definition snapshot (s : State) : Snapshot :=
  {| snap_grid := grid s; snap_players := players s; snap_timeLeft := timeLeft s;
     snap_countdown := countdown s; snap_winner := winner s |}.

Definition broadcastGameState : Handler := λ s, (s, [Broadcast (snapshot s)]).

(** As above: [winner] shows the updates of the roster object it is. *)
Definition sync_winner (s : State) : State :=
  set_winner
    (match winner s with
     | Some w =>
         match List.find (λ p, bool_decide (Player.ref p = Player.ref w)) (players s) with
         | Some p => Some p
         | None => Some w
         end
     | None => None
     end) s.

Definition read_score (scores : gmap string nat) (p : Player.t) : Player.t :=
  Player.with_score (default 0 (scores !! Player.id p)) p.

Definition calculateScores : Handler :=
  modify (λ s,
    let scores := tally ∅ (grid s) in
    sync_winner (set_players (read_score scores <$> players s) s)).

(** [if (!player.isAdmin) player.score = 0] *)
Definition reset_score (p : Player.t) : Player.t :=
  if Player.isAdmin p then p else Player.with_score 0 p.

(** The callback of [grid.map], in [startGameTimer] and in the disconnect
    handler alike. *)
Definition reset_square (square : Cell.t) (index : nat) : Cell.t :=
  if bool_decide (index = 0) then admin_square else blank index.

Definition startGameTimer : Handler :=
  modify (λ s, clearInterval (gameInterval s) s) >>>
  modify (set_timeLeft 60) >>>
  modify (set_winner None) >>>
  modify (set_countdown None) >>>
  modify (λ s, set_players (reset_score <$> players s) s) >>>
  modify (λ s, set_grid (arr_map reset_square (grid s)) s) >>>
  broadcastGameState >>>
  modify (λ s, let '(h, s') := setInterval GameTimer s in set_gameInterval (Some h) s').

Definition best_step (acc : nat * option Player.t) (player : Player.t)
  : nat * option Player.t :=
  if bool_decide (acc.1 < Player.score player)
  then (Player.score player, Some player) else acc.

Definition winningPlayer (ps : list Player.t) : option Player.t :=
  (foldl best_step (0, None) ps).2.

Definition zero_scores (ps : list Player.t) : gmap string nat :=
  foldl (λ scores p, <[Player.id p := 0]> scores) ∅ ps.

Definition endGame : Handler :=
  modify (λ s, clearInterval (gameInterval s) s) >>>
  modify (λ s,
    let scores := tally (zero_scores (players s)) (grid s) in
    set_players (read_score scores <$> players s) s) >>>
  modify (λ s, set_winner (winningPlayer (players s)) s) >>>
  broadcastGameState >>>
  modify (set_countdown (Some 10%Z)) >>>
  modify (λ s, (setInterval CountdownTimer s).2).

Definition gameTick : Handler :=
  modify (λ s, set_timeLeft (timeLeft s - 1) s) >>>
  ifElse (λ s, bool_decide (timeLeft s ≤ 0)%Z) endGame broadcastGameState.

Definition countdownTick (countdownInterval : nat) : Handler :=
  modify (λ s, set_countdown (Some (decrement (countdown s))) s) >>>
  broadcastGameState >>>
  when (λ s, nonpositive (countdown s))
    (modify (clearInterval (Some countdownInterval)) >>> startGameTimer).

Definition tick (h : nat) : Handler :=
  λ s, match timer_kind h (timers s) with
       | Some GameTimer => gameTick s
       | Some CountdownTimer => countdownTick h s
       | None => (s, [])
       end.

Definition connection (socket : Socket) : Handler :=
  λ s, (s, [EmitGameState (socket_id socket) (snapshot s)]).

(** The message for the reserved name; it has [Admin] between double
    quotes (character 34). *)
Definition name_reserved : string :=
  "You cannot use the name " +:+ String (Ascii.ascii_of_nat 34) "Admin"
  +:+ String (Ascii.ascii_of_nat 34) ". Please choose a different name.".

Definition joinGame (socket : Socket) (data : JoinData) : Handler :=
  λ s,
  match List.find (λ p, bool_decide (Player.name p = data_name data)) (players s) with
  | Some _ => (s, [Callback {| success := false; message := Some name_taken |}])
  | None =>
      if bool_decide (toLowerCase (data_name data) = "admin") then
        (s, [Callback {| success := false; message := Some name_reserved |}])
      else
        let newPlayer :=
          Player.mk (nextRef s) (socket_id socket)
            (String.substring 0 15 (data_name data)) (data_color data) 0
            (Some (socket_country socket)) false in
        (modify (λ s, set_nextRef (S (nextRef s))
                        (set_players (players s ++ [newPlayer]) s)) >>>
         when (λ s, is_null (gameInterval s)) startGameTimer >>>
         calculateScores >>>
         broadcastGameState >>>
         emit (Callback {| success := true; message := None |})) s
  end.

Definition claimSquare (socket : Socket) (squareId : Z) : Handler :=
  λ s,
  if negb (bool_decide (countdown s = None)) || bool_decide (winner s ≠ None)
     || bool_decide (squareId = 0%Z)
  then (s, [])
  else
    match List.find (λ p, bool_decide (Player.id p = socket_id socket)) (players s) with
    | None => (s, [])
    | Some player =>
        (modify (λ s, set_grid
                   (arr_set squareId
                      (Cell.mk squareId (Player.color player) (Player.id player)
                         (Player.name player))
                      (grid s)) s) >>>
         calculateScores >>>
         broadcastGameState) s
    end.

Definition disconnect (socket : Socket) : Handler :=
  modify (λ s,
    set_players
      (List.filter (λ player, negb (bool_decide (Player.id player = socket_id socket)))
         (players s)) s) >>>
  ifElse (λ s, bool_decide (length (players s) = 0))
    (modify (λ s, clearInterval (gameInterval s) s) >>>
     modify (set_gameInterval None) >>>
     modify (set_timeLeft 60) >>>
     modify (set_winner None) >>>
     modify (set_countdown None) >>>
     modify (λ s, set_grid (arr_map reset_square (grid s)) s))
    calculateScores >>>
  broadcastGameState.

Inductive Event :=
| Connection (socket : Socket)
| JoinGame (socket : Socket) (data : JoinData)
| ClaimSquare (socket : Socket) (squareId : Z)
| Disconnect (socket : Socket)
| Tick (handle : nat).

Definition step (e : Event) : Handler :=
  match e with
  | Connection socket => connection socket
  | JoinGame socket data => joinGame socket data
  | ClaimSquare socket squareId => claimSquare socket squareId
  | Disconnect socket => disconnect socket
  | Tick h => tick h
  end.

Definition run (es : list Event) (s : State) : State :=
  foldl (λ s e, (step e s).1) s es.

End StaticAdmin.

(** ** Phases, reachable states and invariants *)

Inductive Phase := Lobby | Active | Cooldown.

(** The phase of the round, read off the variables: a countdown is shown
    during the cooldown, and a round has been started when [gameInterval]
    holds a handle. *)
Definition phase (s : State) : Phase :=
  match countdown s, gameInterval s with
  | Some _, _ => Cooldown
  | None, Some _ => Active
  | None, None => Lobby
  end.

(** The states the server can be in: those some sequence of events leads
    to from the initial state. *)
Definition reachable (s : State) : Prop :=
  ∃ es, run es initial_state = Some s.

(** The number of cells of the array that [i] owns. *)
Definition owned (i : string) (g : JsArray) : nat :=
  length (List.filter (λ c, bool_decide (Cell.ownerId c = i)) (arr_present g)).

(** Connection ids are assigned by the transport: they are not empty and
    differ from the reserved owner ['admin'] of the admin square. *)
Definition valid_id (i : string) : Prop := i ≠ "" ∧ i ≠ "admin".

Definition valid_event (e : Event) : Prop :=
  match e with
  | Connection socket | JoinGame socket _ _ | ClaimSquare socket _
  | Disconnect socket => valid_id (socket_id socket)
  | Tick _ => True
  end.

(** Three connections for the sample runs. *)
Definition unknown : Country := {| code := "xx"; country_name := "Unknown" |}.
Definition sockA : Socket := {| socket_id := "sockA"; socket_country := unknown |}.
Definition sockB : Socket := {| socket_id := "sockB"; socket_country := unknown |}.
Definition sockC : Socket := {| socket_id := "sockC"; socket_country := unknown |}.

Definition join (socket : Socket) (name color : string) : Event :=
  JoinGame socket {| data_name := name; data_color := color |} [].

Definition unused (ps : list Player.t) (c : string) : Prop :=
  ∀ p, p ∈ ps → Player.color p ≠ c.

(** What [promote] does when the roster starts with [p]. *)
Definition promoted (p : Player.t) (rest : list Player.t) (s : State) : State :=
  set_grid
    (arr_set 0 (Cell.mk 0 "#000000" (Player.id p) (Player.name p)) (grid s))
    (sync_winner
       (set_players (Player.with_color "#000000" p :: rest)
          (set_adminId (Some (Player.id p)) s))).

Definition count_cells (i : string) (cells : list Cell.t) : nat :=
  length (List.filter (λ c, bool_decide (Cell.ownerId c = i)) cells).

Definition scores_ok (s : State) : Prop :=
  ∀ p, p ∈ players s → Player.score p = owned (Player.id p) (grid s).

Definition ids_ok (s : State) : Prop :=
  (∀ p, p ∈ players s → valid_id (Player.id p)) ∧
  (∀ a, adminId s = Some a → valid_id a).

(** Index 0 of the array is never a hole. *)
Definition cell0_ok (s : State) : Prop :=
  ∃ c rest, elems (grid s) = Some c :: rest.

Definition base_ok (s : State) : Prop := ids_ok s ∧ cell0_ok s.

Definition score_inv (s : State) : Prop := base_ok s ∧ scores_ok s.

(** No round has been started only while nobody has joined, and a winner is
    shown only while the countdown runs. *)
Definition session_inv (s : State) : Prop :=
  (gameInterval s = None → players s = []) ∧
  (countdown s = None → winner s = WNull).

(** The state after the events [es], from the initial state. *)
Definition after (es : list Event) : State :=
  default initial_state (run es initial_state).

(** ** Sample connections and runs *)

(** The first connection (the admin) and a second one both join. *)
Definition both_join : list Event :=
  [Connection sockA; Connection sockB;
   join sockA "Alice" "#ff0000"; join sockB "Bob" "#00ff00"].

Definition two_players : State := after both_join.

(** The roster entry of the second player in [two_players]. *)
Definition bob_joined : Player.t := Player.mk 1 "sockB" "Bob" "#00ff00" 0 unknown.

Definition ticks (n h : nat) : list Event := replicate n (Tick h).

(** The round of [two_players] one tick before its end, at its end, and
    one tick before the end of the cooldown. *)
Definition last_second : State := after (both_join ++ ticks 59 0).
Definition cooling : State := after (both_join ++ ticks 60 0).
Definition last_cooldown : State := after (both_join ++ ticks 60 0 ++ ticks 9 1).

(** Two claims by the second player and one tick of the game interval. *)
Definition short_game : list Event :=
  [Connection sockA; Connection sockB;
   join sockA "Alice" "#ff0000"; join sockB "Bob" "#00ff00";
   ClaimSquare sockB 5; ClaimSquare sockB 7; Tick 0].

(** The admin joins alone and the round runs to its end. *)
Definition solo_round : list Event :=
  [Connection sockA; join sockA "Alice" "#ff0000"] ++ ticks 60 0.

(** The admin connects but never joins; a second connection joins and
    the round runs to its end without a claim. *)
Definition idle_round : list Event :=
  [Connection sockA; Connection sockB; join sockB "Bob" "#00ff00"] ++ ticks 60 0.

(** Two connections that are not the admin join with the same colour. *)
Definition same_color_joins : list Event :=
  [Connection sockA; Connection sockB; Connection sockC;
   join sockB "Bob" "#ff0000"; join sockC "Carol" "#ff0000"].

(** Two requested names that differ after their 15th character only. *)
Definition long_name_joins : list Event :=
  [Connection sockA; Connection sockB; Connection sockC;
   join sockB "Bartholomew the 1st" "#ff0000";
   join sockC "Bartholomew the 2nd" "#00ff00"].

(** In the variant, one connection joins. *)
Definition static_one_player : StaticAdmin.State :=
  StaticAdmin.run
    [StaticAdmin.Connection sockB;
     StaticAdmin.JoinGame sockB {| data_name := "Bob"; data_color := "#ff0000" |}]
    StaticAdmin.initial_state.

(** The countdowns shown by the broadcasts of a step. *)
Definition broadcast_countdowns (out : list Output) : list (option Z) :=
  omap (λ o, match o with
             | Broadcast payload => Some (snap_countdown payload)
             | _ => None
             end) out.

Definition names (s : State) : list string := Player.name <$> players s.

(** The name sent with a join request has at most 15 characters. *)
Definition short_name (e : Event) : Prop :=
  match e with
  | JoinGame _ data _ => (String.length (data_name data) ≤ 15)%nat
  | _ => True
  end.

(** ** Timers and clocks of reachable states *)

(** What holds of the timers before a round is started: handles are fresh
    and distinct, and a live game interval is the one [gameInterval]
    names. *)
Definition timers_ok (s : State) : Prop :=
  (∀ h k, (h, k) ∈ timers s → h < nextTimer s) ∧
  NoDup (fst <$> timers s) ∧
  (∀ h, (h, GameTimer) ∈ timers s → gameInterval s = Some h).

(** The invariant of the clocks: while a game interval is live no countdown
    is shown and at least one second is left; [timeLeft] and [countdown]
    stay within their ranges; and a round that has been started and is not
    in its cooldown has its game interval live. *)
Definition clock_inv (s : State) : Prop :=
  timers_ok s ∧
  (∀ h, (h, GameTimer) ∈ timers s → countdown s = None ∧ (1 ≤ timeLeft s)%Z) ∧
  (0 ≤ timeLeft s ≤ 60)%Z ∧
  (∀ c, countdown s = Some c → (1 ≤ c ≤ 10)%Z) ∧
  (∀ g, countdown s = None → gameInterval s = Some g → (g, GameTimer) ∈ timers s).

(** The variables the clocks depend on. *)
Definition clock_of (s : State)
  : list (nat * TimerKind) * nat * option nat * option Z * Z :=
  (timers s, nextTimer s, gameInterval s, countdown s, timeLeft s).

(** ** The reserved colour *)

(** The ids and colours of the roster, in order. *)
Definition tags (s : State) : list (string * string) :=
  (λ p, (Player.id p, Player.color p)) <$> players s.

(** The colour [#000000] is held by entries of the admin connection only. *)
Definition black_inv (s : State) : Prop :=
  ∀ i, (i, "#000000") ∈ tags s → adminId s = Some i.

(** The roster entry of the first player (the admin) in [two_players]. *)
Definition alice_joined : Player.t := Player.mk 0 "sockA" "Alice" "#000000" 1 unknown.

(** ** The shape of the grid *)

(** The first hundred indices hold a cell, and every cell of the array
    carries its own index as [id]. *)
Definition grid_shape (a : JsArray) : Prop :=
  (∀ i, (i < 100)%nat → ∃ c, elems a !! i = Some (Some c)) ∧
  (∀ i c, elems a !! i = Some (Some c) → Cell.id c = Z.of_nat i).

(** ** The admin square *)


(** ** The country of a connection: [getCountryFromIP] *)

(** What the function reads of the socket: the [x-forwarded-for] header of
    the handshake ([None] when the request has none) and the remote address
    of the connection.  Header values are strings of 8-bit characters. *)
Record Handshake := { forwarded_for : option string; remote_address : string }.

(** What [geoip.lookup] returns when it knows the address; only [country]
    is read. *)
Record Geo := { geo_country : string }.

Definition comma : Ascii.ascii := Eval cbv in Ascii.ascii_of_nat 44.

(** [x.split(',')[0]]: the text before the first comma. *)
Fixpoint first_field (x : string) : string :=
  match x with
  | EmptyString => EmptyString
  | String a x' => if bool_decide (a = comma) then EmptyString else String a (first_field x')
  end.

(** The white space and line terminators [trim] removes, among the 8-bit
    characters: tab to carriage return, space and no-break space. *)
Definition is_space (a : Ascii.ascii) : bool :=
  let n := Ascii.nat_of_ascii a in
  bool_decide (9 ≤ n ≤ 13)%nat || bool_decide (n = 32) || bool_decide (n = 160).

Fixpoint trim_start (x : string) : string :=
  match x with
  | EmptyString => EmptyString
  | String a x' => if is_space a then trim_start x' else x
  end.

Fixpoint trim_end (x : string) : string :=
  match x with
  | EmptyString => EmptyString
  | String a x' =>
      match trim_end x' with
      | EmptyString => if is_space a then EmptyString else String a EmptyString
      | t => String a t
      end
  end.

Definition trim (x : string) : string := trim_end (trim_start x).

(** The rest of [x] after the prefix [p], when [x] starts with it. *)
Fixpoint strip_prefix (p x : string) : option string :=
  match p, x with
  | EmptyString, _ => Some x
  | String a p', String b x' => if bool_decide (a = b) then strip_prefix p' x' else None
  | String _ _, EmptyString => None
  end.

(** [x.replace(/^::ffff:/, '')] *)
Definition unmap (x : string) : string := default x (strip_prefix "::ffff:" x).

Definition clientIP (h : Handshake) : string :=
  match forwarded_for h with
  | Some forwardedFor =>
      if truthy forwardedFor then trim (first_field forwardedFor) else remote_address h
  | None => remote_address h
  end.

Definition cleanIP (h : Handshake) : string :=
  unmap (if bool_decide (clientIP h = "::1") then "127.0.0.1" else clientIP h).

(** [geo?.country || d] *)
Definition country_or (geo : option Geo) (d : string) : string :=
  match geo with Some g => or_else (geo_country g) d | None => d end.

Definition getCountryFromIP (lookup : string → option Geo) (h : Handshake) : Country :=
  let geo := lookup (cleanIP h) in
  {| code := country_or geo "xx"; country_name := country_or geo "Unknown" |}.

(** The connection handler computes [country] once; the handlers of the
    socket close over it. *)
Definition open_socket (lookup : string → option Geo) (id : string) (h : Handshake)
    : Socket :=
  {| socket_id := id; socket_country := getCountryFromIP lookup h |}.

(** A lookup table with one entry, and a request that came through two
    proxies. *)
Definition one_address (ip country : string) : string → option Geo :=
  λ x, if bool_decide (x = ip) then Some {| geo_country := country |} else None.

Definition proxied : Handshake :=
  {| forwarded_for := Some " 203.0.113.7 , 10.0.0.1"; remote_address := "::ffff:10.0.0.2" |}.

(** ** The fixed admin entry of the variant *)

Definition static_valid (e : StaticAdmin.Event) : Prop :=
  match e with
  | StaticAdmin.Connection socket | StaticAdmin.JoinGame socket _
  | StaticAdmin.ClaimSquare socket _ | StaticAdmin.Disconnect socket =>
      valid_id (socket_id socket)
  | StaticAdmin.Tick _ => True
  end.

(** Index 0 holds the admin square, and no other cell has the owner
    ['admin']. *)
Definition static_grid_ok (g : JsArray) : Prop :=
  elems g !! 0 = Some (Some admin_square) ∧
  (∀ j c, elems g !! j = Some (Some c) → Cell.ownerId c = "admin" → j = 0).

(** The admin entry, unchanged, heads the roster. *)
Definition static_inv (s : StaticAdmin.State) : Prop :=
  (∃ rest, StaticAdmin.players s = StaticAdmin.adminPlayer :: rest) ∧
  static_grid_ok (StaticAdmin.grid s).

(** Only the admin entry has a name that reads [admin]. *)
Definition static_names_ok (s : StaticAdmin.State) : Prop :=
  ∀ p, p ∈ StaticAdmin.players s →
    toLowerCase (StaticAdmin.Player.name p) = "admin" →
    StaticAdmin.Player.isAdmin p = true ∧ StaticAdmin.Player.name p = "Admin" ∧
    StaticAdmin.Player.id p = "admin".

(** The events of [static_one_player]. *)
Definition static_bob_joins : list StaticAdmin.Event :=
  [StaticAdmin.Connection sockB;
   StaticAdmin.JoinGame sockB {| data_name := "Bob"; data_color := "#ff0000" |}].

(** * Properties *)

Arguments arr_set : simpl never.

(** Cases on the membership in a list that is given in full. *)
Ltac elem_cases H :=
  repeat (apply elem_of_cons in H as [->|H]); [..|by apply elem_of_nil in H].

(** ** Basic facts *)

Lemma find_elem {A} (f : A → bool) (l : list A) (x : A) :
  x ∈ l → f x = true → ∃ y, List.find f l = Some y ∧ f y = true.
Proof.
  induction 1 as [x l|x y l _ IH]; intros Hx; simpl.
  - rewrite Hx. eauto.
  - destruct (f y) eqn:Hy; eauto.
Qed.

Lemma find_none_elem {A} (f : A → bool) (l : list A) :
  (∀ x, x ∈ l → f x = false) → List.find f l = None.
Proof.
  induction l as [|y l IH]; intros H; simpl; [done|].
  rewrite (H y) by constructor. apply IH. intros x Hx. apply H. by constructor.
Qed.

Lemma existsb_unused ps c :
  unused ps c → existsb (λ p, bool_decide (Player.color p = c)) ps = false.
Proof.
  intros Hfree. apply not_true_is_false. intros [p [Hp Heq]]%existsb_exists.
  apply list_elem_of_In in Hp. apply bool_decide_eq_true in Heq. by eapply Hfree.
Qed.

(** The colour loop ends as soon as a draw gives an unused colour. *)
Lemma redraw_some (ps : list Player.t) (draws : list Draw) (c : string) :
  unused ps c ∨ (∃ d, d ∈ draws ∧ unused ps (generateRandomColor d)) →
  is_Some (redraw ps c draws).
Proof.
  revert c. induction draws as [|d draws IH]; intros c H; simpl.
  - destruct H as [H|[d [Hd _]]]; [|by apply elem_of_nil in Hd].
    rewrite existsb_unused; eauto.
  - destruct (existsb _ ps) eqn:Hc; [|eauto].
    apply IH. destruct H as [H|[d' [Hd Hfree]]].
    + rewrite existsb_unused in Hc; done.
    + apply elem_of_cons in Hd as [->|Hd]; eauto.
Qed.

Lemma new_player_some socket data draws s :
  Some (socket_id socket) = adminId s ∨ data_color data ≠ "#000000" ∨
  (∃ d, d ∈ draws ∧ unused (players s) (generateRandomColor d)) →
  ∃ np, new_player socket data draws s = Some np ∧
        Player.id np = socket_id socket ∧
        Player.name np = String.substring 0 15 (data_name data).
Proof.
  intros H. unfold new_player. case_bool_decide as Hadm; [eauto|].
  cbn. case_bool_decide as Hcol; [|eauto].
  destruct H as [H|[H|[d' [Hd Hfree]]]]; [done..|].
  destruct draws as [|d rest]; [by apply elem_of_nil in Hd|].
  destruct (redraw_some (players s) rest (generateRandomColor d)) as [c Hc].
  { apply elem_of_cons in Hd as [->|Hd]; eauto. }
  rewrite Hc. cbn. eauto.
Qed.

(** ** Joining *)

Lemma joinGame_taken socket data draws s p :
  p ∈ players s → Player.name p = data_name data →
  joinGame socket data draws s =
    Some (s, [Callback {| success := false; message := Some name_taken |}]).
Proof.
  intros Hp Hname. unfold joinGame.
  destruct (find_elem (λ p, bool_decide (Player.name p = data_name data)) _ p Hp)
    as [q [-> _]]; [by apply bool_decide_eq_true|done].
Qed.

Lemma joinGame_free socket data draws s np :
  (∀ p, p ∈ players s → Player.name p ≠ data_name data) →
  new_player socket data draws s = Some np →
  ∃ s' out, joinGame socket data draws s = Some (s', out) ∧
    Player.id <$> players s' = (Player.id <$> players s) ++ [Player.id np] ∧
    Player.name <$> players s' = (Player.name <$> players s) ++ [Player.name np] ∧
    last out = Some (Callback {| success := true; message := None |}).
Proof.
  intros Hfree Hnp. unfold joinGame.
  rewrite find_none_elem; last first.
  { intros p Hp. apply bool_decide_eq_false. by apply Hfree. }
  rewrite Hnp. cbn [mbind option_bind].
  match goal with |- context [Some (?h s)] => set (r := h s) end.
  exists r.1, r.2. split; [by destruct r|]. subst r.
  cbn. unfold when. cbn.
  destruct (gameInterval s) eqn:Hg; cbn;
    rewrite <- !list_fmap_compose, !fmap_app; cbn; split_and!; try done.
  all: by rewrite last_snoc.
Qed.

(** C9. A join request whose name is exactly the name of a player of the
    roster is answered [{success: false, message: "This name is already
    taken. Please choose a different one."}], and the state, the roster
    included, is unchanged. *)
Theorem joinGame_name_taken socket data draws s :
  (∃ p, p ∈ players s ∧ Player.name p = data_name data) →
  step (JoinGame socket data draws) s =
    Some (s, [Callback
                {| success := false;
                   message :=
                     Some "This name is already taken. Please choose a different one." |}]).
Proof. intros (p & Hp & Hname). by apply (joinGame_taken socket data draws s p). Qed.

(** C10. The join handler does not look at whether the connection has
    joined before.  From any state whose roster has an entry of the
    connection already, a request under a name that is not taken succeeds
    (provided the colour loop, when it runs, is given a draw that is not in
    use): an entry with the id of the connection and the requested name cut
    to 15 characters is appended, the other entries keep their ids and
    names, the answer is [{success: true}], and the roster now has two
    entries with the id of the connection. *)
Theorem joinGame_again_appends socket data draws s :
  (∃ p, p ∈ players s ∧ Player.id p = socket_id socket) →
  (∀ p, p ∈ players s → Player.name p ≠ data_name data) →
  Some (socket_id socket) = adminId s ∨ data_color data ≠ "#000000" ∨
    (∃ d, d ∈ draws ∧ unused (players s) (generateRandomColor d)) →
  ∃ s' out,
    step (JoinGame socket data draws) s = Some (s', out) ∧
    Player.id <$> players s' = (Player.id <$> players s) ++ [socket_id socket] ∧
    Player.name <$> players s' =
      (Player.name <$> players s) ++ [String.substring 0 15 (data_name data)] ∧
    last out = Some (Callback {| success := true; message := None |}) ∧
    ∃ i j p q, (i < j)%nat ∧ players s' !! i = Some p ∧ players s' !! j = Some q ∧
      Player.id p = socket_id socket ∧ Player.id q = socket_id socket.
Proof.
  intros (p0 & Hp0 & Hid0) Hfree Hcol.
  destruct (new_player_some socket data draws s Hcol) as (np & Hnp & Hid & Hname).
  destruct (joinGame_free socket data draws s np Hfree Hnp)
    as (s' & out & Hj & Hids & Hnames & Hout).
  exists s', out. rewrite Hid in Hids. rewrite Hname in Hnames.
  split_and!; try done.
  apply list_elem_of_lookup in Hp0 as [i Hi].
  pose proof (lookup_lt_Some _ _ _ Hi) as Hlt.
  assert ((Player.id <$> players s') !! i = Some (socket_id socket)) as H1.
  { rewrite Hids, lookup_app_l by by rewrite length_fmap.
    by rewrite list_lookup_fmap, Hi; cbn; rewrite Hid0. }
  assert ((Player.id <$> players s') !! length (players s) = Some (socket_id socket))
    as H2.
  { rewrite Hids, lookup_app_r by by rewrite length_fmap.
    by rewrite length_fmap, Nat.sub_diag. }
  rewrite list_lookup_fmap in H1, H2.
  destruct (players s' !! i) as [p|] eqn:E1; [|done].
  destruct (players s' !! length (players s)) as [q|] eqn:E2; [|done].
  exists i, (length (players s)), p, q. cbn in H1, H2.
  split_and!; [done..|congruence|congruence].
Qed.

(** ** Disconnecting *)

Lemma others_not_socket socket s p : p ∈ others socket s → Player.id p ≠ socket_id socket.
Proof.
  unfold others. intros Hp%list_elem_of_In%filter_In. destruct Hp as [_ Hp].
  by apply negb_true_iff, bool_decide_eq_false in Hp.
Qed.

Lemma arr_set_0 v a : ∃ rest, elems (arr_set 0 v a) = Some v :: rest.
Proof.
  unfold arr_set. cbn. destruct (elems a) as [|c cs]; cbn; eauto.
Qed.

Lemma truthy_true x : x ≠ "" → truthy x = true.
Proof. intros. unfold truthy. by rewrite bool_decide_false. Qed.

Lemma promote_head s p rest :
  players s = p :: rest → Player.id p ≠ "" →
  promote s = (promoted p rest s, [EmitAdminStatus (Player.id p) true]).
Proof.
  intros Hps Hid. unfold promote, promoted, andThen at 1. cbn. rewrite Hps. cbn.
  rewrite truthy_true by done. rewrite bool_decide_true by done.
  cbn. rewrite Hps. cbn. rewrite bool_decide_true by done. reflexivity.
Qed.

(** C8. When the connection holding the admin role disconnects and players
    remain (the roster without the entries of that connection starts with
    [p], whose id, a connection id, is not empty), then in the same step
    [p] becomes the admin: [adminId] is its id, which differs from the id
    of the connection that left, it stays first in the roster under the
    same name with colour [#000000], square 0 is black and carries its id
    and name, and it is sent its new admin status. *)
Theorem admin_disconnect_promotes socket s p rest :
  adminId s = Some (socket_id socket) →
  others socket s = p :: rest →
  Player.id p ≠ "" →
  let s' := (disconnect socket s).1 in
  adminId s' = Some (Player.id p) ∧
  Player.id p ≠ socket_id socket ∧
  (∃ p' rest', players s' = p' :: rest' ∧ Player.ref p' = Player.ref p ∧
     Player.id p' = Player.id p ∧ Player.name p' = Player.name p ∧
     Player.color p' = "#000000") ∧
  (∃ c, elems (grid s') !! 0 = Some (Some c) ∧ Cell.ownerId c = Player.id p ∧
     Cell.ownerName c = Player.name p ∧ Cell.color c = "#000000") ∧
  EmitAdminStatus (Player.id p) true ∈ (disconnect socket s).2.
Proof.
  intros Hadmin Hothers Hid s'. subst s'.
  assert (Player.id p ≠ socket_id socket) as Hne.
  { apply (others_not_socket socket s). rewrite Hothers. constructor. }
  unfold disconnect. cbn. fold (others socket s). unfold when, ifElse. cbn.
  rewrite Hadmin. rewrite (bool_decide_true (Some _ = Some _)) by done.
  rewrite (promote_head _ p rest) by (by cbn).
  cbn. destruct (arr_set_0 (Cell.mk 0 "#000000" (Player.id p) (Player.name p)) (grid s))
    as [cs Hcs].
  rewrite bool_decide_false by done. unfold promoted. cbn.
  rewrite Hcs. cbn. split_and!; eauto 10.
  set_solver.
Qed.

(** ** Clock ticks *)

Lemma gameTick_running s :
  (0 < timeLeft s - 1)%Z →
  gameTick s = (set_timeLeft (timeLeft s - 1) s,
                [Broadcast (snapshot (set_timeLeft (timeLeft s - 1) s))]).
Proof.
  intros Ht. unfold gameTick, andThen, ifElse. cbn.
  rewrite bool_decide_false by lia. reflexivity.
Qed.

Lemma gameTick_over s :
  (timeLeft s - 1 ≤ 0)%Z →
  gameTick s = ((endGame (set_timeLeft (timeLeft s - 1) s)).1,
                (endGame (set_timeLeft (timeLeft s - 1) s)).2).
Proof.
  intros Ht. unfold gameTick, andThen, ifElse. cbn - [endGame].
  rewrite bool_decide_true by lia. reflexivity.
Qed.

Lemma countdownTick_running h s c :
  countdown s = Some c → (0 < c - 1)%Z →
  countdownTick h s = (set_countdown (Some (c - 1)%Z) s,
                       [Broadcast (snapshot (set_countdown (Some (c - 1)%Z) s))]).
Proof.
  intros Hc Ht. unfold countdownTick, andThen, when. cbn -[startGameTimer].
  rewrite Hc. cbn -[startGameTimer]. rewrite bool_decide_false by lia. reflexivity.
Qed.

Lemma countdownTick_over h s :
  (decrement (countdown s) ≤ 0)%Z →
  (countdownTick h s).1 =
    (startGameTimer
       (clearInterval (Some h) (set_countdown (Some (decrement (countdown s))) s))).1.
Proof.
  intros Ht. unfold countdownTick, andThen, when. cbn - [startGameTimer].
  rewrite bool_decide_true by lia. reflexivity.
Qed.

(** C6. When the game interval fires, [timeLeft] goes down by exactly 1;
    while the result is positive nothing else changes and the state is
    broadcast; once it is 0 or less the phase becomes [Cooldown] with
    [countdown = 10], a countdown interval is started and the state is
    broadcast.  When a countdown interval fires during the cooldown,
    [countdown] goes down by 1 and the state is broadcast; once it is 0 or
    less the round restarts: the phase is [Active] again, [timeLeft] is 60,
    [countdown] and [winner] are [null], a new game interval is running and
    every cell but cell 0 is reset to the blank cell of its index. *)
Theorem tick_round_cycle s h :
  (timer_kind h (timers s) = Some GameTimer →
   ((0 < timeLeft s - 1)%Z →
      tick h s = (set_timeLeft (timeLeft s - 1) s,
                  [Broadcast (snapshot (set_timeLeft (timeLeft s - 1) s))])) ∧
   ((timeLeft s - 1 ≤ 0)%Z →
      let s' := (tick h s).1 in
      timeLeft s' = (timeLeft s - 1)%Z ∧ countdown s' = Some 10%Z ∧
      phase s' = Cooldown ∧ grid s' = grid s ∧
      (nextTimer s, CountdownTimer) ∈ timers s' ∧
      ∃ snap, (tick h s).2 = [Broadcast snap])) ∧
  (timer_kind h (timers s) = Some CountdownTimer →
   ∀ c, countdown s = Some c →
   ((0 < c - 1)%Z →
      tick h s = (set_countdown (Some (c - 1)%Z) s,
                  [Broadcast (snapshot (set_countdown (Some (c - 1)%Z) s))])) ∧
   ((c - 1 ≤ 0)%Z →
      let s' := (tick h s).1 in
      phase s' = Active ∧ timeLeft s' = 60%Z ∧ countdown s' = None ∧
      winner s' = WNull ∧
      gameInterval s' = Some (nextTimer s) ∧
      (nextTimer s, GameTimer) ∈ timers s' ∧
      ∀ i, i ≠ 0 →
        elems (grid s') !! i = (fmap (λ _, blank i)) <$> (elems (grid s) !! i))).
Proof.
  unfold tick. split; intros ->.
  - split; intros Ht; [by apply gameTick_running|].
    rewrite gameTick_over by done. cbn. split_and!; try done.
    + destruct (gameInterval s); set_solver.
    + eauto.
  - intros c Hc. split; intros Ht; [by apply countdownTick_running|].
    cbn zeta. rewrite countdownTick_over by (rewrite Hc; cbn; lia).
    cbn. split_and!; try done.
    + destruct (gameInterval s); set_solver.
    + intros i Hi. rewrite list_lookup_imap.
      destruct (elems (grid s) !! i) as [[sq|]|]; cbn; try done.
      unfold reset_square. by rewrite bool_decide_false.
Qed.

(** ** Scores and owned cells *)

Lemma tally_lookup (cells : list Cell.t) (m : gmap string nat) (i : string) :
  i ≠ "" →
  default 0 (foldl count_square m cells !! i) = default 0 (m !! i) + count_cells i cells.
Proof.
  intros Hi. revert m. induction cells as [|c cells IH]; intros m; cbn.
  - unfold count_cells. cbn. lia.
  - rewrite IH. unfold count_square, count_cells, truthy. cbn.
    destruct (decide (Cell.ownerId c = i)) as [->|Hne].
    + rewrite (bool_decide_false (i = "")), (bool_decide_true (i = i)) by done.
      cbn. rewrite lookup_insert_eq. cbn. lia.
    + rewrite (bool_decide_false (Cell.ownerId c = i)) by done.
      case_bool_decide; cbn; [done|]. by rewrite lookup_insert_ne.
Qed.

Lemma zero_scores_lookup (ps : list Player.t) (i : string) :
  default 0 (zero_scores ps !! i) = 0.
Proof.
  unfold zero_scores.
  assert (∀ m : gmap string nat, default 0 (m !! i) = 0 →
    default 0 (foldl (λ scores p, <[Player.id p := 0]> scores) m ps !! i) = 0) as H.
  { induction ps as [|p ps IH]; intros m Hm; cbn; [done|].
    apply IH. destruct (decide (Player.id p = i)) as [->|Hne].
    - by rewrite lookup_insert_eq.
    - by rewrite lookup_insert_ne. }
  apply H. by rewrite lookup_empty.
Qed.

Lemma read_scores_ok (ps : list Player.t) (g : JsArray) (m : gmap string nat) p :
  (∀ i, default 0 (m !! i) = 0) →
  (∀ q, q ∈ ps → Player.id q ≠ "") →
  p ∈ read_score (tally m g) <$> ps →
  Player.score p = owned (Player.id p) g.
Proof.
  intros Hm Hids (q & -> & Hq)%list_elem_of_fmap. cbn. unfold tally.
  rewrite tally_lookup by auto. rewrite Hm. reflexivity.
Qed.

Lemma calculateScores_ok s :
  (∀ q, q ∈ players s → Player.id q ≠ "") → scores_ok (calculateScores s).1.
Proof.
  intros Hids p Hp. cbn in *. eapply read_scores_ok; [|done..].
  intros i. by rewrite lookup_empty.
Qed.

Lemma endGame_ok s :
  (∀ q, q ∈ players s → Player.id q ≠ "") → scores_ok (endGame s).1.
Proof.
  intros Hids p Hp. cbn in *. eapply read_scores_ok; [|done..].
  apply zero_scores_lookup.
Qed.

(** After a reset, only index 0 can have an owner. *)
Lemma blank_cells_unowned (f : nat → Cell.t → Cell.t) (l : list (option Cell.t)) i :
  i ≠ "" → (∀ n c, Cell.ownerId (f n c) = "") →
  count_cells i (omap (λ o, o) (imap (λ n o, f n <$> o) l)) = 0.
Proof.
  intros Hi. revert f. induction l as [|o l IH]; intros f Hf; [done|].
  cbn. destruct o as [c|]; cbn.
  - unfold count_cells in *. cbn. rewrite Hf, bool_decide_false by done.
    apply (IH (f ∘ S)). intros; apply Hf.
  - apply (IH (f ∘ S)). intros; apply Hf.
Qed.

Lemma owned_after_map (f : Cell.t → nat → Cell.t) (g : JsArray) c rest i :
  i ≠ "" → elems g = Some c :: rest →
  (∀ sq n, Cell.ownerId (f sq (S n)) = "") →
  owned i (arr_map f g) = if bool_decide (Cell.ownerId (f c 0) = i) then 1 else 0.
Proof.
  intros Hi Hg Hf. unfold owned, arr_present, arr_map. cbn. rewrite Hg. cbn.
  pose proof (blank_cells_unowned (λ n sq, f sq (S n)) rest i Hi (λ n c, Hf c n))
    as Hrest.
  unfold count_cells in Hrest.
  case_bool_decide; cbn [length]; [f_equal|]; exact Hrest.
Qed.

Lemma startGameTimer_ok s :
  ids_ok s → cell0_ok s → scores_ok (startGameTimer s).1.
Proof.
  intros [Hids Hadm] (c & rest & Hg) p Hp. cbn -[owned arr_map] in *.
  apply list_elem_of_fmap in Hp as (q & -> & Hq). cbn -[owned arr_map].
  destruct (Hids q Hq) as [Hne Hna].
  rewrite (owned_after_map _ _ c rest) by (done || (intros; done)).
  unfold reset_square. cbn. destruct (adminId s) as [a|] eqn:Ha.
  - destruct (Hadm a eq_refl) as [Ha1 Ha2]. unfold or_else. rewrite truthy_true by done.
    rewrite (bool_decide_true (0 = 0)) by done. cbn.
    repeat case_bool_decide; congruence.
  - rewrite (bool_decide_true (0 = 0)) by done. cbn.
    rewrite bool_decide_false by done. by rewrite bool_decide_false.
Qed.

(** *** The invariant behind the scores *)

Lemma ids_ok_fmap (f : Player.t → Player.t) (ps : list Player.t) (P : string → Prop) :
  (∀ p, Player.id (f p) = Player.id p) →
  (∀ p, p ∈ ps → P (Player.id p)) → ∀ p, p ∈ f <$> ps → P (Player.id p).
Proof.
  intros Hf Hps p (q & -> & Hq)%list_elem_of_fmap. rewrite Hf. auto.
Qed.

Lemma cell0_arr_set k v g :
  (∃ c rest, elems g = Some c :: rest) →
  ∃ c rest, elems (arr_set k v g) = Some c :: rest.
Proof.
  intros (c & rest & Hg). unfold arr_set. destruct (is_index k); cbn; [|eauto].
  rewrite Hg. case_bool_decide; cbn; [|eauto].
  destruct (Z.to_nat k); cbn; eauto.
Qed.

Lemma cell0_arr_map f g :
  (∃ c rest, elems g = Some c :: rest) →
  ∃ c rest, elems (arr_map f g) = Some c :: rest.
Proof. intros (c & rest & Hg). unfold arr_map. cbn. rewrite Hg. cbn. eauto. Qed.

Lemma startGameTimer_base s : base_ok s → base_ok (startGameTimer s).1.
Proof.
  intros [[Hids Hadm] Hc]. split; [split|]; cbn -[arr_map].
  - by apply ids_ok_fmap.
  - done.
  - by apply cell0_arr_map.
Qed.

Lemma calculateScores_base s : base_ok s → base_ok (calculateScores s).1.
Proof.
  intros [[Hids Hadm] Hc]. split; [split|]; cbn; [|done..]. by apply ids_ok_fmap.
Qed.

Lemma endGame_base s : base_ok s → base_ok (endGame s).1.
Proof.
  intros [[Hids Hadm] Hc]. split; [split|]; cbn; [|done..]. by apply ids_ok_fmap.
Qed.

Lemma base_ok_nonempty s q : base_ok s → q ∈ players s → Player.id q ≠ "".
Proof. intros [[Hids _] _] Hq. by destruct (Hids q Hq). Qed.

Lemma startGameTimer_inv s : base_ok s → score_inv (startGameTimer s).1.
Proof.
  intros H. split; [by apply startGameTimer_base|].
  destruct H. by apply startGameTimer_ok.
Qed.

Lemma calculateScores_inv s : base_ok s → score_inv (calculateScores s).1.
Proof.
  intros H. split; [by apply calculateScores_base|].
  apply calculateScores_ok. intros q. by apply base_ok_nonempty.
Qed.

Lemma endGame_inv s : base_ok s → score_inv (endGame s).1.
Proof.
  intros H. split; [by apply endGame_base|].
  apply endGame_ok. intros q. by apply base_ok_nonempty.
Qed.

Lemma connection_inv socket s :
  valid_id (socket_id socket) → score_inv s → score_inv (connection socket s).1.
Proof.
  intros Hv [[[Hids Hadm] Hc] Hs]. unfold connection, andThen, ifElse. cbn.
  destruct (_ && _); cbn; [|done].
  split; [split; [split|]|]; cbn; try done. by intros a [= <-].
Qed.

Lemma new_player_id socket data draws s np :
  new_player socket data draws s = Some np → Player.id np = socket_id socket.
Proof.
  unfold new_player. case_bool_decide; [by intros [= <-]|].
  case_bool_decide; [|by intros [= <-]].
  destruct draws as [|d rest]; [done|].
  destruct (redraw _ _ _); cbn; [by intros [= <-]|done].
Qed.

Lemma new_player_name socket data draws s np :
  new_player socket data draws s = Some np →
  Player.name np = String.substring 0 15 (data_name data).
Proof.
  unfold new_player. case_bool_decide; [by intros [= <-]|].
  case_bool_decide; [|by intros [= <-]].
  destruct draws as [|d rest]; [done|].
  destruct (redraw _ _ _); cbn; [by intros [= <-]|done].
Qed.

Lemma joinGame_inv socket data draws s s' out :
  valid_id (socket_id socket) → score_inv s →
  joinGame socket data draws s = Some (s', out) → score_inv s'.
Proof.
  intros Hv Hinv. unfold joinGame. destruct (List.find _ _); [by intros [= <- _]|].
  destruct (new_player socket data draws s) as [np|] eqn:Hnp; [|done].
  cbn [mbind option_bind]. intros [= <- _].
  pose proof (new_player_id _ _ _ _ _ Hnp) as Hid.
  destruct Hinv as [[[Hids Hadm] Hc] _].
  set (s1 := set_nextRef (S (nextRef s)) (set_players (players s ++ [np]) s)).
  assert (base_ok s1) as H1.
  { split; [split|]; cbn; [|done..].
    intros p [Hp|Hp%list_elem_of_singleton]%elem_of_app; [auto|].
    subst p. by rewrite Hid. }
  change (score_inv (calculateScores (when (λ s, is_null (gameInterval s)) startGameTimer s1).1).1).
  apply calculateScores_inv. unfold when. destruct (is_null _); [|done].
  by apply startGameTimer_base.
Qed.

Lemma claimSquare_inv socket squareId s :
  score_inv s → score_inv (claimSquare socket squareId s).1.
Proof.
  intros Hinv. unfold claimSquare. destruct (_ || _); [done|].
  destruct (find_by_id _ _) as [player|]; [|done].
  destruct (_ && _); [done|].
  change (score_inv (calculateScores
    (set_grid (arr_set squareId (claimed squareId player) (grid s)) s)).1).
  apply calculateScores_inv. destruct Hinv as [[Hids Hc] _].
  split; [done|]. by apply cell0_arr_set.
Qed.

Lemma promote_base s : base_ok s → base_ok (promote s).1.
Proof.
  intros [[Hids Hadm] Hc]. destruct (players s) as [|p rest] eqn:Hps.
  - unfold promote, andThen. cbn. rewrite Hps. cbn.
    split; [split|]; cbn; try done. rewrite Hps. apply Hids.
  - destruct (Hids p) as [Hne Hna]; [constructor|].
    rewrite (promote_head s p rest) by done. unfold promoted.
    split; [split|]; cbn -[arr_set].
    + intros q [->|Hq]%elem_of_cons; [done|]. apply Hids. by constructor.
    + by intros a [= <-].
    + by apply cell0_arr_set.
Qed.

Lemma disconnect_inv socket s : score_inv s → score_inv (disconnect socket s).1.
Proof.
  intros [[[Hids Hadm] Hc] _].
  set (s1 := set_players (others socket s) s).
  assert (base_ok s1) as H1.
  { split; [split|]; cbn; try done. intros p Hp. apply Hids.
    unfold others in Hp. apply list_elem_of_In, filter_In in Hp as [Hp _].
    by apply list_elem_of_In. }
  set (s2 := (when (λ s, bool_decide (Some (socket_id socket) = adminId s)) promote s1).1).
  assert (base_ok s2) as H2.
  { unfold s2, when. destruct (bool_decide _); [by apply promote_base|done]. }
  destruct (bool_decide (length (players s2) = 0)) eqn:Hlen.
  - apply bool_decide_eq_true, nil_length_inv in Hlen.
    assert ((disconnect socket s).1 =
            set_grid (arr_map initial_square (grid s2))
              (set_countdown None (set_winner WNull (set_timeLeft 60
                (set_gameInterval None (clearInterval (gameInterval s2) s2))))))
      as ->.
    { unfold disconnect, andThen at 1 2, ifElse. cbn -[arr_map when promote].
      fold (others socket s). fold s1. fold s2.
      rewrite Hlen. reflexivity. }
    destruct H2 as [[Hids2 Hadm2] Hc2].
    split; [split; [split|]|]; cbn -[arr_map]; try done.
    + by apply cell0_arr_map.
    + intros p. cbn. rewrite Hlen. by intros ?%elem_of_nil.
  - assert ((disconnect socket s).1 = (calculateScores s2).1) as ->.
    { unfold disconnect, andThen at 1 2, ifElse. cbn -[arr_map when promote calculateScores].
      fold (others socket s). fold s1. fold s2.
      rewrite Hlen. reflexivity. }
    by apply calculateScores_inv.
Qed.

Lemma tick_inv h s : score_inv s → score_inv (tick h s).1.
Proof.
  intros Hinv. unfold tick. destruct (timer_kind h (timers s)) as [[]|]; [| |done].
  - unfold gameTick, andThen, ifElse. cbn -[endGame].
    destruct (bool_decide _); [|done].
    apply endGame_inv. by destruct Hinv.
  - unfold countdownTick, andThen, when. cbn -[startGameTimer].
    destruct (bool_decide _); [|done].
    apply startGameTimer_inv. by destruct Hinv.
Qed.

Lemma step_inv e s s' out :
  valid_event e → score_inv s → step e s = Some (s', out) → score_inv s'.
Proof.
  destruct e as [socket|socket data draws|socket squareId|socket|h]; cbn;
    intros Hv Hinv Hstep; [|by eapply joinGame_inv|..];
    injection Hstep as Hstep; change s' with (s', out).1; rewrite <- Hstep.
  - by apply connection_inv.
  - by apply claimSquare_inv.
  - by apply disconnect_inv.
  - by apply tick_inv.
Qed.

Lemma run_inv es s s' :
  Forall valid_event es → score_inv s → run es s = Some s' → score_inv s'.
Proof.
  intros Hes. revert s. induction Hes as [|e es He _ IH]; intros s Hinv; cbn.
  - by intros [= <-].
  - destruct (step e s) as [[s1 out]|] eqn:Hstep; [|done].
    apply IH. by eapply step_inv.
Qed.

Lemma initial_inv : score_inv initial_state.
Proof.
  split; [split; [split|]|]; cbn.
  - by intros p ?%elem_of_nil.
  - done.
  - unfold cell0_ok. vm_compute. eauto.
  - by intros p ?%elem_of_nil.
Qed.

(** C4. After every sequence of events (connections, joins, claims,
    disconnections, ticks) whose connection ids are ids the transport
    assigns, the score of every player of the roster is the number of cells
    of the grid whose [ownerId] is the id of that player. *)
Theorem scores_match_grid es s :
  Forall valid_event es → run es initial_state = Some s →
  ∀ p, p ∈ players s → Player.score p = owned (Player.id p) (grid s).
Proof.
  intros Hes Hrun. by destruct (run_inv es initial_state s Hes initial_inv Hrun).
Qed.

(** ** Phases of reachable states *)

Lemma sync_winner_null s : winner s = WNull → winner (sync_winner s) = WNull.
Proof. intros H. cbn. by rewrite H. Qed.

Lemma session_connection socket s :
  session_inv s → session_inv (connection socket s).1.
Proof.
  intros Hinv. unfold connection, andThen, ifElse. cbn. by destruct (_ && _).
Qed.

Lemma session_joinGame socket data draws s s' out :
  session_inv s → joinGame socket data draws s = Some (s', out) → session_inv s'.
Proof.
  intros [Hlobby Hwin]. unfold joinGame. destruct (List.find _ _); [by intros [= <- _]|].
  destruct (new_player socket data draws s) as [np|]; [|done].
  cbn [mbind option_bind]. intros [= <- _]. unfold andThen, when. cbn.
  destruct (gameInterval s) eqn:Hg; cbn; split; cbn; rewrite ?Hg; try done.
  intros Hc. by rewrite Hwin.
Qed.

Lemma session_claimSquare socket squareId s :
  session_inv s → session_inv (claimSquare socket squareId s).1.
Proof.
  intros [Hlobby Hwin]. unfold claimSquare. destruct (_ || _); [done|].
  destruct (find_by_id _ _) as [player|]; [|done].
  destruct (_ && _); [done|]. split; cbn.
  - intros Hg. by rewrite Hlobby.
  - intros Hc. by rewrite Hwin.
Qed.

Lemma promote_session s :
  let s' := (promote s).1 in
  gameInterval s' = gameInterval s ∧ countdown s' = countdown s ∧
  (players s = [] → players s' = []) ∧ (winner s = WNull → winner s' = WNull).
Proof.
  destruct (players s) as [|p rest] eqn:Hps; cbn zeta.
  - unfold promote, andThen. cbn. rewrite Hps. cbn. by rewrite Hps.
  - unfold promote, andThen. cbn. rewrite Hps. cbn.
    destruct (truthy (Player.id p)); [|by cbn].
    rewrite bool_decide_true by done. cbn. split_and!; try done.
    intros ->. done.
Qed.

Lemma session_disconnect socket s :
  session_inv s → session_inv (disconnect socket s).1.
Proof.
  intros [Hlobby Hwin].
  set (s1 := set_players (others socket s) s).
  set (s2 := (when (λ s, bool_decide (Some (socket_id socket) = adminId s)) promote s1).1).
  assert (gameInterval s2 = gameInterval s ∧ countdown s2 = countdown s ∧
          (players s = [] → players s2 = []) ∧ (winner s = WNull → winner s2 = WNull))
    as (Hg & Hc & Hp & Hw).
  { unfold s2, when. destruct (bool_decide _); [|by unfold s1, others; split_and!; try intros ->].
    destruct (promote_session s1) as (? & ? & Hp & ?). split_and!; try done.
    intros E. apply Hp. unfold s1, others. cbn. by rewrite E. }
  destruct (bool_decide (length (players s2) = 0)) eqn:Hlen.
  - assert (players (disconnect socket s).1 = [] ∧ winner (disconnect socket s).1 = WNull)
      as [Hp' Hw']; [|by split].
    unfold disconnect, andThen at 1 2, ifElse. cbn -[arr_map when promote].
    fold (others socket s). fold s1. fold s2. rewrite Hlen. cbn.
    by apply bool_decide_eq_true, nil_length_inv in Hlen.
  - assert ((disconnect socket s).1 = (calculateScores s2).1) as ->.
    { unfold disconnect, andThen at 1 2, ifElse. cbn -[arr_map when promote calculateScores].
      fold (others socket s). fold s1. fold s2.
      rewrite Hlen. reflexivity. }
    split; cbn; [rewrite Hg|rewrite Hc]; intros E.
    + by rewrite Hp; [|apply Hlobby].
    + by rewrite Hw; [|apply Hwin].
Qed.

Lemma session_tick h s : session_inv s → session_inv (tick h s).1.
Proof.
  intros [Hlobby Hwin]. unfold tick. destruct (timer_kind h (timers s)) as [[]|]; [| |done].
  - unfold gameTick, andThen, ifElse. cbn.
    destruct (bool_decide _); [|done]. split; cbn; [|done].
    intros Hg. by rewrite Hlobby.
  - unfold countdownTick, andThen, when. cbn.
    destruct (bool_decide _); [|by split; cbn]. by split; cbn.
Qed.

Lemma session_step e s s' out :
  session_inv s → step e s = Some (s', out) → session_inv s'.
Proof.
  destruct e as [socket|socket data draws|socket squareId|socket|h]; cbn;
    intros Hinv Hstep; [|by eapply session_joinGame|..];
    injection Hstep as Hstep; change s' with (s', out).1; rewrite <- Hstep.
  - by apply session_connection.
  - by apply session_claimSquare.
  - by apply session_disconnect.
  - by apply session_tick.
Qed.

Lemma session_run es s s' : session_inv s → run es s = Some s' → session_inv s'.
Proof.
  revert s. induction es as [|e es IH]; intros s Hinv; cbn.
  - by intros [= <-].
  - destruct (step e s) as [[s1 out]|] eqn:Hstep; [|done].
    apply IH. by eapply session_step.
Qed.

Lemma reachable_session s : reachable s → session_inv s.
Proof. intros [es Hrun]. by apply (session_run es initial_state). Qed.

(** ** Claiming squares *)

Lemma find_by_id_none i (ps : list Player.t) :
  (∀ p, p ∈ ps → Player.id p ≠ i) → find_by_id (Some i) ps = None.
Proof.
  intros H. apply find_none_elem. intros p Hp. apply bool_decide_eq_false.
  intros [= E]. by apply (H p).
Qed.

Lemma claimSquare_cooldown socket squareId s :
  phase s = Cooldown → claimSquare socket squareId s = (s, []).
Proof.
  unfold phase, claimSquare. destruct (countdown s); [done|]. by destruct (gameInterval s).
Qed.

Lemma claimSquare_not_joined socket squareId s :
  (∀ p, p ∈ players s → Player.id p ≠ socket_id socket) →
  claimSquare socket squareId s = (s, []).
Proof.
  intros H. unfold claimSquare. rewrite find_by_id_none by done. by destruct (_ || _).
Qed.

(** Square 0 is refused to anyone but the admin, whatever the phase. *)
Lemma claimSquare_zero_not_admin socket s :
  adminId s ≠ Some (socket_id socket) → claimSquare socket 0 s = (s, []).
Proof.
  intros H. unfold claimSquare. destruct (_ || _); [done|].
  destruct (find_by_id _ _); [|done].
  rewrite (bool_decide_false (Some _ = _)) by done. done.
Qed.

(** During a round, a player who has joined gets any square but 0, and
    the admin gets square 0 as well as any other. *)
Lemma claimSquare_accepted socket squareId s player :
  reachable s → phase s = Active →
  find_by_id (Some (socket_id socket)) (players s) = Some player →
  squareId ≠ 0%Z ∨ adminId s = Some (socket_id socket) →
  let s' := (claimSquare socket squareId s).1 in
  grid s' = arr_set squareId (claimed squareId player) (grid s) ∧
  (claimSquare socket squareId s).2 = [Broadcast (snapshot s')].
Proof.
  intros [_ Hwin]%reachable_session Hphase Hfind Hok.
  unfold phase in Hphase. destruct (countdown s) eqn:Hc; [done|].
  unfold claimSquare. rewrite Hc, Hwin, Hfind by done. cbn -[arr_set].
  destruct Hok as [Hne|Hadm].
  - rewrite (bool_decide_false (squareId = 0%Z)) by done. by cbn -[arr_set].
  - rewrite (bool_decide_true (Some _ = _)) by done. rewrite andb_false_r.
    by cbn -[arr_set].
Qed.

Lemma two_players_reachable : reachable two_players.
Proof.
  exists both_join. vm_compute. reflexivity.
Defined.

(** C1, as amended.  In every reachable state, a claim is rejected with no
    change of state (the whole state, timers included, is the same
    afterwards, and nothing is emitted) when the phase is not [Active], or
    when the square is 0 and the caller is not the admin, or when no player
    of the roster has the id of the caller.  An index outside 0..99 is not
    a reason for rejection. *)
Theorem claimSquare_rejected socket squareId s :
  reachable s →
  phase s ≠ Active ∨
  (squareId = 0%Z ∧ adminId s ≠ Some (socket_id socket)) ∨
  (∀ p, p ∈ players s → Player.id p ≠ socket_id socket) →
  step (ClaimSquare socket squareId) s = Some (s, []).
Proof.
  intros Hreach H. cbn. f_equal.
  destruct H as [Hphase|[[-> Hadm]|Hnot]].
  - destruct (phase s) eqn:Hp; [|done|by apply claimSquare_cooldown].
    apply claimSquare_not_joined.
    destruct (reachable_session s Hreach) as [Hlobby _].
    unfold phase in Hp. destruct (countdown s); [done|].
    destruct (gameInterval s); [done|]. rewrite Hlobby by done.
    by intros p ?%elem_of_nil.
  - by apply claimSquare_zero_not_admin.
  - by apply claimSquare_not_joined.
Qed.

Lemma claimSquare_rejected_witness :
  reachable two_players ∧
  (0 = 0)%Z ∧ adminId two_players ≠ Some (socket_id sockB) ∧
  step (ClaimSquare sockB 0) two_players = Some (two_players, []).
Proof.
  split; [exact two_players_reachable|].
  split; [reflexivity|]. split; [vm_compute; discriminate|].
  apply claimSquare_rejected; [exact two_players_reachable|].
  right; left. split; [reflexivity|vm_compute; discriminate].
Defined.

(** C1 as stated fails: with two players in a running round, the claim of
    square 100, which is outside 0..99, is accepted; the array grows to 101
    elements and the scores change. *)
Lemma claimSquare_out_of_range_accepted :
  reachable two_players ∧ phase two_players = Active ∧ ¬ (0 ≤ 100 ≤ 99)%Z ∧
  ∃ s' out, step (ClaimSquare sockB 100) two_players = Some (s', out) ∧
    grid s' ≠ grid two_players ∧
    elems (grid s') !! 100 = Some (Some (Cell.mk 100 "#00ff00" "sockB" "Bob")) ∧
    Player.score <$> players s' ≠ Player.score <$> players two_players.
Proof.
  split; [exact two_players_reachable|]. split; [reflexivity|]. split; [lia|].
  eexists _, _. split; [vm_compute; reflexivity|].
  split; [|split]; [|vm_compute; reflexivity|vm_compute; discriminate].
  intros H. apply (f_equal (λ g, length (elems g))) in H. vm_compute in H. discriminate.
Qed.

(** C2 on the failing input: in a running round the admin, who has joined,
    claims square 5 and gets it, although the comment in the handler says
    the admin cannot claim any square but the first. *)
Theorem admin_claims_other_square :
  let s := two_players in
  let s' := (claimSquare sockA 5 s).1 in
  reachable s ∧ phase s = Active ∧ adminId s = Some "sockA" ∧
  elems (grid s') !! 5 = Some (Some (Cell.mk 5 "#000000" "sockA" "Alice")) ∧
  Player.score <$> players s' = [2; 0].
Proof.
  split; [exact two_players_reachable|]. vm_compute. done.
Qed.

(** C3 on the failing input: two connections join under different names
    with the same colour, and both are in the roster with that colour. *)
Theorem joined_with_same_color :
  ∃ s, run same_color_joins initial_state = Some s ∧
    Player.id <$> players s = ["sockB"; "sockC"] ∧
    Player.name <$> players s = ["Bob"; "Carol"] ∧
    Player.color <$> players s = ["#ff0000"; "#ff0000"].
Proof. eexists. split; [vm_compute; reflexivity|]. vm_compute. done. Qed.

(** Names longer than 15 characters are compared in full and stored cut:
    two requests that agree on their first 15 characters give two entries
    with the same name. *)
Lemma joined_with_same_truncated_name :
  ∃ s, run long_name_joins initial_state = Some s ∧
    Player.id <$> players s = ["sockB"; "sockC"] ∧
    Player.name <$> players s = ["Bartholomew the"; "Bartholomew the"].
Proof. eexists. split; [vm_compute; reflexivity|]. vm_compute. done. Qed.

(** C5 on the failing input: the admin connection has not joined, the only
    player has no cell when the round ends, and [winner] is [undefined],
    not the admin. *)
Theorem round_end_admin_not_joined :
  ∃ s, run idle_round initial_state = Some s ∧
    phase s = Cooldown ∧ countdown s = Some 10%Z ∧ adminId s = Some "sockA" ∧
    Player.id <$> players s = ["sockB"] ∧ Player.score <$> players s = [0] ∧
    winner s = WUndefined.
Proof. eexists. split; [vm_compute; reflexivity|]. vm_compute. done. Qed.

(** C7 on the failing input: the only player leaves during the cooldown.
    The variables are reset, but the countdown interval is still running;
    when it fires, it broadcasts a countdown of -1 and starts a round with
    an empty roster. *)
Theorem last_disconnect_in_cooldown :
  ∃ s, run (solo_round ++ [Disconnect sockA]) initial_state = Some s ∧
    players s = [] ∧ phase s = Lobby ∧ grid s = initial_grid ∧
    timers s = [(1, CountdownTimer)] ∧
    let s' := (tick 1 s).1 in
    broadcast_countdowns (tick 1 s).2 = [Some (-1)%Z; None] ∧
    players s' = [] ∧ phase s' = Active ∧ gameInterval s' = Some 2 ∧
    timers s' = [(2, GameTimer)].
Proof. eexists. split; [vm_compute; reflexivity|]. vm_compute. done. Qed.

(** ** The winner of a round *)

(** The loop keeps the first player whose score is the highest, if that
    score is positive. *)
Lemma best_fold_spec (ps : list Player.t) :
  match foldl best_step (0, None) ps with
  | (m, Some w) =>
      m = Player.score w ∧ 0 < m ∧
      ∃ before rest, ps = before ++ w :: rest ∧
        Forall (λ q, (Player.score q < Player.score w)%nat) before ∧
        Forall (λ q, (Player.score q ≤ Player.score w)%nat) rest
  | (m, None) => m = 0 ∧ Forall (λ q, Player.score q = 0) ps
  end.
Proof.
  induction ps as [|p ps IH] using rev_ind; [done|].
  rewrite foldl_app. cbn. destruct (foldl best_step (0, None) ps) as [m [w|]];
    unfold best_step; cbn; case_bool_decide as Hlt.
  - destruct IH as (-> & Hpos & before & rest & -> & Hb & Hr).
    split_and!; [done|lia|]. exists (before ++ w :: rest), []. split_and!; [done| |done].
    apply Forall_app. split; [|constructor].
    + eapply Forall_impl; [done|]. cbn. lia.
    + done.
    + eapply Forall_impl; [done|]. cbn. lia.
  - destruct IH as (-> & Hpos & before & rest & -> & Hb & Hr).
    split_and!; [done..|]. exists before, (rest ++ [p]). split_and!; [|done|].
    + by rewrite <- app_assoc.
    + apply Forall_app. split; [done|]. constructor; [lia|done].
  - destruct IH as [-> Hz]. split_and!; [done..|]. exists ps, []. split_and!; [done| |done].
    eapply Forall_impl; [done|]. cbn. lia.
  - destruct IH as [-> Hz]. split; [done|]. apply Forall_app. split; [done|].
    constructor; [lia|done].
Qed.

Lemma winningPlayer_first_highest ps w :
  winningPlayer ps = Some w →
  0 < Player.score w ∧
  ∃ before rest, ps = before ++ w :: rest ∧
    Forall (λ q, (Player.score q < Player.score w)%nat) before ∧
    Forall (λ q, (Player.score q ≤ Player.score w)%nat) rest.
Proof.
  unfold winningPlayer. pose proof (best_fold_spec ps) as H.
  destruct (foldl best_step (0, None) ps) as [m [w'|]]; cbn; [|done].
  intros [= ->]. destruct H as (-> & ? & ?). done.
Qed.

Lemma winningPlayer_none ps :
  winningPlayer ps = None ↔ Forall (λ q, Player.score q = 0) ps.
Proof.
  unfold winningPlayer. pose proof (best_fold_spec ps) as H.
  destruct (foldl best_step (0, None) ps) as [m [w|]]; cbn.
  - split; [done|]. intros Hz. destruct H as (-> & Hpos & before & rest & -> & _).
    apply Forall_app in Hz as [_ Hz]. apply Forall_cons in Hz as [Hz _]. lia.
  - by destruct H.
Qed.

(** When nobody has scored, the winner is the roster entry of the admin,
    if there is one... *)
Lemma pick_winner_admin_joined s p :
  Forall (λ q, Player.score q = 0) (players s) →
  truthy_id (adminId s) = true → find_by_id (adminId s) (players s) = Some p →
  pick_winner s = WPlayer p.
Proof.
  intros Hz%winningPlayer_none Ht Hf. unfold pick_winner. by rewrite Hz, Ht, Hf.
Qed.

(** ... and [undefined] when the admin connection has not joined. *)
Lemma pick_winner_admin_absent s a :
  Forall (λ q, Player.score q = 0) (players s) →
  adminId s = Some a → a ≠ "" → (∀ q, q ∈ players s → Player.id q ≠ a) →
  pick_winner s = WUndefined.
Proof.
  intros Hz%winningPlayer_none Ha Hne Hout. unfold pick_winner.
  rewrite Hz, Ha. cbn. rewrite truthy_true by done. by rewrite find_by_id_none.
Qed.

Lemma pick_winner_no_admin s :
  Forall (λ q, Player.score q = 0) (players s) → adminId s = None →
  pick_winner s = WLiteral "admin" "Admin" "#000000" 1.
Proof.
  intros Hz%winningPlayer_none Ha. unfold pick_winner. by rewrite Hz, Ha.
Qed.

Lemma endGame_winner s :
  winner (endGame s).1 =
    pick_winner
      (set_players (read_score (tally (zero_scores (players s)) (grid s)) <$> players s) s).
Proof.
  cbn. unfold pick_winner. cbn. reflexivity.
Qed.

(** ** The last player leaves *)

Lemma promote_nobody s :
  players s = [] → (promote s).1 = set_adminId None s ∧ (promote s).2 = [].
Proof. intros Hps. unfold promote, andThen. cbn. rewrite Hps. by cbn. Qed.

(** The variables are back to their initial values, and the game interval
    is cleared. *)
Lemma disconnect_last socket s :
  others socket s = [] →
  let s' := (disconnect socket s).1 in
  players s' = [] ∧ phase s' = Lobby ∧ timeLeft s' = 60%Z ∧ winner s' = WNull ∧
  countdown s' = None ∧ gameInterval s' = None ∧
  grid s' = arr_map initial_square (grid s) ∧
  timers s' = timers (clearInterval (gameInterval s) s).
Proof.
  intros Hothers.
  set (s1 := set_players (others socket s) s).
  set (s2 := (when (λ s, bool_decide (Some (socket_id socket) = adminId s)) promote s1).1).
  assert (players s2 = [] ∧ grid s2 = grid s ∧ timers s2 = timers s ∧
          gameInterval s2 = gameInterval s) as (Hp & Hg & Ht & Hi).
  { unfold s2, when. destruct (bool_decide _); [|done].
    destruct (promote_nobody s1) as [-> _]; done. }
  cbn zeta.
  assert ((disconnect socket s).1 =
          set_grid (arr_map initial_square (grid s2))
            (set_countdown None (set_winner WNull (set_timeLeft 60
              (set_gameInterval None (clearInterval (gameInterval s2) s2))))))
    as ->.
  { unfold disconnect, andThen at 1 2, ifElse. cbn -[arr_map when promote].
    fold (others socket s). fold s1. fold s2. by rewrite Hp. }
  cbn -[arr_map]. by rewrite Hp, Hg, Ht, Hi.
Qed.

Lemma imap_no_hole (f : nat → Cell.t) (l : list (option Cell.t)) :
  Forall is_Some l →
  imap (λ i o, (λ _, f i) <$> o) l = (λ i, Some (f i)) <$> seq 0 (length l).
Proof.
  intros Hl. revert f. induction Hl as [|o l [c ->] _ IH]; intros f; [done|].
  cbn. f_equal. etrans; [exact (IH (f ∘ S))|].
  by rewrite <- fmap_S_seq, <- list_fmap_compose.
Qed.

(** On a grid of 100 cells the reset gives the initial grid. *)
Lemma arr_map_initial g :
  length (elems g) = 100 → Forall is_Some (elems g) →
  arr_map initial_square g = initial_grid.
Proof.
  intros Hlen Hfull. unfold arr_map.
  rewrite (imap_no_hole (initial_square admin_square)) by done.
  rewrite Hlen. vm_compute. reflexivity.
Qed.

(** When the game interval is the only timer, no timer is left. *)
Lemma disconnect_last_stops_game_timer socket s g :
  others socket s = [] → gameInterval s = Some g → timers s = [(g, GameTimer)] →
  timers (disconnect socket s).1 = [].
Proof.
  intros Hothers Hg Ht.
  destruct (disconnect_last socket s Hothers) as (_ & _ & _ & _ & _ & _ & _ & ->).
  cbn. rewrite Hg, Ht. cbn. by rewrite bool_decide_true.
Qed.

(** The disconnect handler stops no timer but the one [gameInterval]
    names. *)
Lemma disconnect_keeps_timer socket s h k :
  (h, k) ∈ timers s → gameInterval s ≠ Some h →
  (h, k) ∈ timers (disconnect socket s).1.
Proof.
  intros Hin Hne.
  set (s1 := set_players (others socket s) s).
  set (s2 := (when (λ s, bool_decide (Some (socket_id socket) = adminId s)) promote s1).1).
  assert (timers s2 = timers s ∧ gameInterval s2 = gameInterval s) as [Ht Hi].
  { unfold s2, when. destruct (bool_decide _); [|done].
    destruct (promote_session s1) as (? & _). split; [|done].
    unfold promote, andThen. cbn. destruct (others socket s) as [|p rest]; [done|]. cbn.
    destruct (truthy _); [|done]. by rewrite bool_decide_true. }
  assert (timers (disconnect socket s).1 =
          if bool_decide (length (players s2) = 0)
          then timers (clearInterval (gameInterval s2) s2) else timers s2) as ->.
  { unfold disconnect, andThen at 1 2, ifElse. cbn -[arr_map when promote].
    fold (others socket s). fold s1. fold s2. by destruct (bool_decide _). }
  destruct (bool_decide _); rewrite ?Ht; [|done]. cbn. rewrite Hi, Ht.
  destruct (gameInterval s) as [g|]; [|done].
  apply list_elem_of_In, filter_In. split; [by apply list_elem_of_In|].
  cbn. apply negb_true_iff, bool_decide_eq_false. congruence.
Qed.

(** ** Names in the roster *)

Lemma substring_short (n : nat) (x : string) :
  (String.length x ≤ n)%nat → String.substring 0 n x = x.
Proof.
  revert n. induction x as [|c x IH]; intros [|n] Hlen; cbn in *; try done; [lia|].
  f_equal. apply IH. lia.
Qed.

Lemma names_calculateScores s : names (calculateScores s).1 = names s.
Proof. unfold names. cbn. by rewrite <- list_fmap_compose. Qed.

Lemma names_startGameTimer s : names (startGameTimer s).1 = names s.
Proof. unfold names. cbn. by rewrite <- list_fmap_compose. Qed.

Lemma names_endGame s : names (endGame s).1 = names s.
Proof. unfold names. cbn. by rewrite <- list_fmap_compose. Qed.

Lemma names_tick h s : names (tick h s).1 = names s.
Proof.
  unfold tick. destruct (timer_kind h (timers s)) as [[]|]; [| |done].
  - unfold gameTick, andThen, ifElse. cbn -[endGame names].
    destruct (bool_decide _); [|done]. cbn [fst]. by rewrite names_endGame.
  - unfold countdownTick, andThen, when. cbn -[startGameTimer names].
    destruct (bool_decide _); [|done]. cbn [fst]. by rewrite names_startGameTimer.
Qed.

Lemma names_claimSquare socket squareId s :
  names (claimSquare socket squareId s).1 = names s.
Proof.
  unfold claimSquare. destruct (_ || _); [done|].
  destruct (find_by_id _ _) as [player|]; [|done].
  destruct (_ && _); [done|].
  change (names (calculateScores
    (set_grid (arr_set squareId (claimed squareId player) (grid s)) s)).1 = names s).
  by rewrite names_calculateScores.
Qed.

Lemma names_connection socket s : names (connection socket s).1 = names s.
Proof. unfold connection, andThen, ifElse. cbn. by destruct (_ && _). Qed.

Lemma names_mutate_found test c ps :
  Player.name <$> mutate_found test (Player.with_color c) ps = Player.name <$> ps.
Proof.
  induction ps as [|p ps IH]; cbn; [done|]. destruct (test p); cbn; [done|].
  by rewrite IH.
Qed.

Lemma names_promote s : names (promote s).1 = names s.
Proof.
  destruct (players s) as [|p rest] eqn:Hps.
  - by destruct (promote_nobody s Hps) as [-> _].
  - unfold promote, andThen, names. cbn. rewrite Hps. cbn.
    destruct (truthy _); [|by cbn; rewrite Hps].
    rewrite !bool_decide_true by done. by cbn.
Qed.

Lemma NoDup_names_filter (f : Player.t → bool) ps :
  NoDup (Player.name <$> ps) → NoDup (Player.name <$> List.filter f ps).
Proof.
  induction ps as [|p ps IH]; cbn; [done|].
  intros [Hp Hps]%NoDup_cons. destruct (f p); cbn; [|auto].
  apply NoDup_cons. split; [|auto]. intros Hin. apply Hp.
  apply list_elem_of_fmap in Hin as (q & -> & Hq).
  apply list_elem_of_fmap. exists q. split; [done|].
  apply list_elem_of_In, filter_In in Hq as [Hq _]. by apply list_elem_of_In.
Qed.

Lemma names_disconnect socket s :
  NoDup (names s) → NoDup (names (disconnect socket s).1).
Proof.
  intros Hnd.
  set (s1 := set_players (others socket s) s).
  set (s2 := (when (λ s, bool_decide (Some (socket_id socket) = adminId s)) promote s1).1).
  assert (NoDup (names s2)) as H2.
  { assert (NoDup (names s1)) by by apply NoDup_names_filter.
    unfold s2, when. destruct (bool_decide _); [|done]. by rewrite names_promote. }
  destruct (bool_decide (length (players s2) = 0)) eqn:Hlen.
  - assert (players (disconnect socket s).1 = []) as Hp.
    { unfold disconnect, andThen at 1 2, ifElse. cbn -[arr_map when promote].
      fold (others socket s). fold s1. fold s2. rewrite Hlen. cbn.
      by apply bool_decide_eq_true, nil_length_inv in Hlen. }
    unfold names. rewrite Hp. constructor.
  - assert ((disconnect socket s).1 = (calculateScores s2).1) as ->.
    { unfold disconnect, andThen at 1 2, ifElse. cbn -[arr_map when promote calculateScores].
      fold (others socket s). fold s1. fold s2.
      rewrite Hlen. reflexivity. }
    by rewrite names_calculateScores.
Qed.

Lemma names_joinGame socket data draws s s' out :
  (String.length (data_name data) ≤ 15)%nat → NoDup (names s) →
  joinGame socket data draws s = Some (s', out) → NoDup (names s').
Proof.
  intros Hlen Hnd Hjoin.
  destruct (List.find (λ p, bool_decide (Player.name p = data_name data)) (players s))
    as [p|] eqn:Hfind.
  { unfold joinGame in Hjoin. rewrite Hfind in Hjoin. by injection Hjoin as <- _. }
  assert (∀ p, p ∈ players s → Player.name p ≠ data_name data) as Hfree.
  { intros p Hp%list_elem_of_In. apply (find_none _ _ Hfind) in Hp.
    by apply bool_decide_eq_false in Hp. }
  destruct (new_player socket data draws s) as [np|] eqn:Hnp; last first.
  { unfold joinGame in Hjoin. by rewrite Hfind, Hnp in Hjoin. }
  destruct (joinGame_free socket data draws s np Hfree Hnp) as (s'' & out' & Hj & _ & Hn & _).
  rewrite Hj in Hjoin. injection Hjoin as <- _. unfold names. rewrite Hn.
  assert (Player.name np = data_name data) as ->.
  { rewrite (new_player_name _ _ _ _ _ Hnp). by apply substring_short. }
  apply NoDup_app. split_and!; [done| |apply NoDup_singleton].
  intros x (q & -> & Hq)%list_elem_of_fmap Hx%list_elem_of_singleton.
  by apply (Hfree q).
Qed.

(** As long as the requested names have at most 15 characters, the names
    of the roster are pairwise distinct. *)
Lemma names_distinct es s :
  Forall short_name es → run es initial_state = Some s → NoDup (names s).
Proof.
  intros Hes. assert (NoDup (names initial_state)) as Hinit by constructor.
  revert Hinit. generalize initial_state.
  induction Hes as [|e es He _ IH]; intros s0 Hnd; cbn; [by intros [= <-]|].
  destruct (step e s0) as [[s1 out]|] eqn:Hstep; [|done]. apply IH.
  destruct e as [socket|socket data draws|socket squareId|socket|h];
    cbn [step short_name] in *; [|by eapply names_joinGame|..];
    apply (inj Some), (f_equal fst) in Hstep; cbn [fst] in Hstep; subst s1.
  - by rewrite names_connection.
  - by rewrite names_claimSquare.
  - by apply names_disconnect.
  - by rewrite names_tick.
Qed.

(** ** The variant with a fixed admin entry *)

(** In the variant too, a request under a name of the roster is refused
    with the same message and changes nothing. *)
Lemma static_joinGame_name_taken socket data s :
  (∃ p, p ∈ StaticAdmin.players s ∧ StaticAdmin.Player.name p = data_name data) →
  StaticAdmin.joinGame socket data s =
    (s, [StaticAdmin.Callback {| success := false; message := Some name_taken |}]).
Proof.
  intros (p & Hp & Hname). unfold StaticAdmin.joinGame.
  destruct (find_elem (λ p, bool_decide (StaticAdmin.Player.name p = data_name data))
              _ p Hp) as [q [-> _]]; [by apply bool_decide_eq_true|done].
Qed.

(** In the variant too, the handler does not look at who asks: a free
    name other than [admin] is appended under the id of the connection. *)
Lemma static_joinGame_appends socket data s :
  (∀ p, p ∈ StaticAdmin.players s → StaticAdmin.Player.name p ≠ data_name data) →
  toLowerCase (data_name data) ≠ "admin" →
  let r := StaticAdmin.joinGame socket data s in
  StaticAdmin.Player.id <$> StaticAdmin.players r.1 =
    (StaticAdmin.Player.id <$> StaticAdmin.players s) ++ [socket_id socket] ∧
  StaticAdmin.Player.name <$> StaticAdmin.players r.1 =
    (StaticAdmin.Player.name <$> StaticAdmin.players s)
      ++ [String.substring 0 15 (data_name data)] ∧
  last r.2 = Some (StaticAdmin.Callback {| success := true; message := None |}).
Proof.
  intros Hfree Hadmin. unfold StaticAdmin.joinGame.
  rewrite find_none_elem; last first.
  { intros p Hp. apply bool_decide_eq_false. by apply Hfree. }
  rewrite bool_decide_false by done. cbn. unfold when. cbn.
  destruct (StaticAdmin.gameInterval s) eqn:Hg; cbn;
    rewrite <- !list_fmap_compose, !fmap_app; cbn; split_and!; try done.
  all: try by rewrite last_snoc.
  all: f_equal; apply list_fmap_ext; intros ? p ?; cbn;
    unfold StaticAdmin.reset_score; by destruct (StaticAdmin.Player.isAdmin p).
Qed.

(** The rejections of the variant: a countdown or a winner is shown, the
    square is 0 (for every caller), or the caller has not joined. *)
Lemma static_claimSquare_rejected socket squareId s :
  StaticAdmin.countdown s ≠ None ∨ StaticAdmin.winner s ≠ None ∨ squareId = 0%Z ∨
  (∀ p, p ∈ StaticAdmin.players s → StaticAdmin.Player.id p ≠ socket_id socket) →
  StaticAdmin.claimSquare socket squareId s = (s, []).
Proof.
  intros H. unfold StaticAdmin.claimSquare.
  destruct (_ || _) eqn:Hguard; [done|].
  apply orb_false_iff in Hguard as [[Hc Hw]%orb_false_iff Hz].
  apply negb_false_iff, bool_decide_eq_true in Hc.
  apply bool_decide_eq_false in Hw, Hz.
  destruct H as [H|[H|[H|H]]]; [done..|].
  rewrite find_none_elem; [done|].
  intros p Hp. apply bool_decide_eq_false. by apply H.
Qed.

(** The variant has no range check either. *)
Lemma static_claimSquare_out_of_range :
  let s := static_one_player in
  let s' := (StaticAdmin.claimSquare sockB 100 s).1 in
  length (elems (StaticAdmin.grid s)) = 100 ∧
  length (elems (StaticAdmin.grid s')) = 101 ∧
  StaticAdmin.Player.score <$> StaticAdmin.players s' = [1; 1].
Proof. vm_compute. done. Qed.

(** The variant never compares colours. *)
Lemma static_same_color :
  let s := (StaticAdmin.joinGame sockC {| data_name := "Carol"; data_color := "#ff0000" |}
              static_one_player).1 in
  StaticAdmin.Player.name <$> StaticAdmin.players s = ["Admin"; "Bob"; "Carol"] ∧
  StaticAdmin.Player.color <$> StaticAdmin.players s = ["#000000"; "#ff0000"; "#ff0000"].
Proof. vm_compute. done. Qed.

(** In the variant the admin entry owns square 0 and wins a round without
    claims. *)
Lemma static_round_without_claims :
  let s := StaticAdmin.run (replicate 60 (StaticAdmin.Tick 0)) static_one_player in
  StaticAdmin.countdown s = Some 10%Z ∧
  StaticAdmin.Player.score <$> StaticAdmin.players s = [1; 0] ∧
  StaticAdmin.Player.name <$> StaticAdmin.winner s = Some "Admin".
Proof. vm_compute. done. Qed.

(** [calculateScores] is the same function in the variant: it leaves in
    every player with an id the number of cells that it owns. *)
Lemma static_calculateScores_ok s p :
  p ∈ StaticAdmin.players (StaticAdmin.calculateScores s).1 →
  StaticAdmin.Player.id p ≠ "" →
  StaticAdmin.Player.score p = owned (StaticAdmin.Player.id p) (StaticAdmin.grid s).
Proof.
  cbn. intros (q & -> & Hq)%list_elem_of_fmap Hid. cbn in *. unfold tally.
  rewrite tally_lookup by done. by rewrite lookup_empty.
Qed.

(** ** The theorems on the sample runs *)

Lemma bob_in_two_players : bob_joined ∈ players two_players.
Proof. vm_compute. apply list_elem_of_further, list_elem_of_here. Defined.

Lemma joinGame_name_taken_witness :
  (∃ p, p ∈ players two_players ∧ Player.name p = "Bob") ∧
  step (join sockC "Bob" "#0000ff") two_players =
    Some (two_players,
          [Callback {| success := false;
                       message := Some "This name is already taken. Please choose a different one." |}]).
Proof.
  assert (∃ p, p ∈ players two_players ∧ Player.name p = "Bob") as H.
  { exists bob_joined. split; [exact bob_in_two_players|reflexivity]. }
  split; [exact H|].
  exact (joinGame_name_taken sockC {| data_name := "Bob"; data_color := "#0000ff" |}
           [] two_players H).
Defined.

Lemma joinGame_again_appends_witness :
  (∃ p, p ∈ players two_players ∧ Player.id p = "sockB") ∧
  (∀ p, p ∈ players two_players → Player.name p ≠ "Bobby") ∧
  ∃ s' out,
    step (join sockB "Bobby" "#0000ff") two_players = Some (s', out) ∧
    Player.id <$> players s' = ["sockA"; "sockB"; "sockB"] ∧
    Player.name <$> players s' = ["Alice"; "Bob"; "Bobby"].
Proof.
  assert (∃ p, p ∈ players two_players ∧ Player.id p = socket_id sockB) as H1.
  { exists bob_joined. split; [exact bob_in_two_players|reflexivity]. }
  assert (∀ p, p ∈ players two_players →
               Player.name p ≠ data_name {| data_name := "Bobby"; data_color := "#0000ff" |})
    as H2.
  { intros p Hp. vm_compute in Hp. elem_cases Hp; discriminate. }
  split; [exact H1|]. split; [exact H2|].
  destruct (joinGame_again_appends sockB {| data_name := "Bobby"; data_color := "#0000ff" |}
              [] two_players H1 H2) as (s' & out & Hstep & Hids & Hnames & _).
  { right; left. discriminate. }
  exists s', out. split; [exact Hstep|]. split; [exact Hids|exact Hnames].
Defined.

Lemma admin_disconnect_promotes_witness :
  adminId two_players = Some "sockA" ∧
  others sockA two_players = [bob_joined] ∧
  adminId (disconnect sockA two_players).1 = Some "sockB" ∧
  elems (grid (disconnect sockA two_players).1) !! 0 =
    Some (Some (Cell.mk 0 "#000000" "sockB" "Bob")).
Proof.
  assert (adminId two_players = Some (socket_id sockA)) as H1 by reflexivity.
  assert (others sockA two_players = [bob_joined]) as H2 by (vm_compute; reflexivity).
  assert (Player.id bob_joined ≠ "") as H3 by discriminate.
  split; [exact H1|]. split; [exact H2|].
  destruct (admin_disconnect_promotes sockA two_players bob_joined [] H1 H2 H3)
    as (Hadm & _ & _ & (c & Hc & Hc1 & Hc2 & Hc3) & _).
  split; [exact Hadm|]. vm_compute. reflexivity.
Defined.

Lemma scores_match_grid_witness :
  let bob := Player.with_score 2 bob_joined in
  Forall valid_event short_game ∧
  run short_game initial_state = Some (after short_game) ∧
  bob ∈ players (after short_game) ∧
  Player.score bob = owned (Player.id bob) (grid (after short_game)).
Proof.
  intros bob.
  assert (Forall valid_event short_game) as H1.
  { repeat constructor; discriminate. }
  assert (run short_game initial_state = Some (after short_game)) as H2
    by (vm_compute; reflexivity).
  assert (bob ∈ players (after short_game)) as H3.
  { vm_compute. apply list_elem_of_further, list_elem_of_here. }
  split; [exact H1|]. split; [exact H2|]. split; [exact H3|].
  exact (scores_match_grid short_game (after short_game) H1 H2 bob H3).
Defined.

Lemma tick_round_cycle_witness :
  (timer_kind 0 (timers two_players) = Some GameTimer ∧
   (0 < timeLeft two_players - 1)%Z ∧
   timeLeft (tick 0 two_players).1 = 59%Z) ∧
  (timer_kind 0 (timers last_second) = Some GameTimer ∧
   (timeLeft last_second - 1 ≤ 0)%Z ∧
   countdown (tick 0 last_second).1 = Some 10%Z ∧
   phase (tick 0 last_second).1 = Cooldown) ∧
  (timer_kind 1 (timers cooling) = Some CountdownTimer ∧
   countdown cooling = Some 10%Z ∧ (0 < 10 - 1)%Z ∧
   countdown (tick 1 cooling).1 = Some 9%Z) ∧
  (timer_kind 1 (timers last_cooldown) = Some CountdownTimer ∧
   countdown last_cooldown = Some 1%Z ∧ (1 - 1 ≤ 0)%Z ∧
   phase (tick 1 last_cooldown).1 = Active ∧
   timeLeft (tick 1 last_cooldown).1 = 60%Z).
Proof.
  assert (timer_kind 0 (timers two_players) = Some GameTimer) as Ha1
    by (vm_compute; reflexivity).
  assert (0 < timeLeft two_players - 1)%Z as Ha2 by (vm_compute; reflexivity).
  assert (timer_kind 0 (timers last_second) = Some GameTimer) as Hb1
    by (vm_compute; reflexivity).
  assert (timeLeft last_second - 1 ≤ 0)%Z as Hb2 by (vm_compute; discriminate).
  assert (timer_kind 1 (timers cooling) = Some CountdownTimer) as Hc1
    by (vm_compute; reflexivity).
  assert (countdown cooling = Some 10%Z) as Hc2 by (vm_compute; reflexivity).
  assert (0 < 10 - 1)%Z as Hc3 by (vm_compute; reflexivity).
  assert (timer_kind 1 (timers last_cooldown) = Some CountdownTimer) as Hd1
    by (vm_compute; reflexivity).
  assert (countdown last_cooldown = Some 1%Z) as Hd2 by (vm_compute; reflexivity).
  assert (1 - 1 ≤ 0)%Z as Hd3 by (vm_compute; discriminate).
  split; [|split; [|split]].
  - split; [exact Ha1|]. split; [exact Ha2|].
    destruct (tick_round_cycle two_players 0) as [H _].
    destruct (H Ha1) as [Hrun _]. rewrite (Hrun Ha2). vm_compute. reflexivity.
  - split; [exact Hb1|]. split; [exact Hb2|].
    destruct (tick_round_cycle last_second 0) as [H _].
    destruct (H Hb1) as [_ Hover]. destruct (Hover Hb2) as (_ & Hcd & Hph & _).
    split; [exact Hcd|exact Hph].
  - split; [exact Hc1|]. split; [exact Hc2|]. split; [exact Hc3|].
    destruct (tick_round_cycle cooling 1) as [_ H].
    destruct (H Hc1 10%Z Hc2) as [Hrun _]. rewrite (Hrun Hc3). reflexivity.
  - split; [exact Hd1|]. split; [exact Hd2|]. split; [exact Hd3|].
    destruct (tick_round_cycle last_cooldown 1) as [_ H].
    destruct (H Hd1 1%Z Hd2) as [_ Hover].
    destruct (Hover Hd3) as (Hph & Htl & _). split; [exact Hph|exact Htl].
Defined.

(** ** Timers and clocks *)

Lemma timer_kind_elem h k (ts : list (nat * TimerKind)) :
  timer_kind h ts = Some k → (h, k) ∈ ts.
Proof.
  unfold timer_kind. destruct (List.find _ ts) as [[h' k']|] eqn:Hf; [|done].
  cbn. intros [= ->]. apply find_some in Hf as [Hin Heq].
  apply bool_decide_eq_true in Heq. cbn in Heq. subst h'. by apply list_elem_of_In.
Qed.

Lemma elem_of_timers_filter (f : nat * TimerKind → bool) ts t :
  t ∈ List.filter f ts ↔ t ∈ ts ∧ f t = true.
Proof. rewrite !list_elem_of_In. apply filter_In. Qed.

Lemma NoDup_handles_filter (f : nat * TimerKind → bool) ts :
  NoDup (fst <$> ts) → NoDup (fst <$> List.filter f ts).
Proof.
  induction ts as [|t ts IH]; cbn; [done|].
  intros [Ht Hts]%NoDup_cons. destruct (f t); cbn; [|auto].
  apply NoDup_cons. split; [|auto]. intros (t' & Heq & Hin)%list_elem_of_fmap_1.
  apply Ht. rewrite Heq. apply list_elem_of_fmap_2.
  by apply elem_of_timers_filter in Hin as [Hin _].
Qed.

Lemma NoDup_handles_snoc (ts : list (nat * TimerKind)) n (k : TimerKind) :
  NoDup (fst <$> ts) → (∀ h k', (h, k') ∈ ts → h < n) →
  NoDup (fst <$> ts ++ [(n, k)]).
Proof.
  intros Hnd Hlt. rewrite fmap_app. apply NoDup_app. split_and!; [done| |].
  - intros h ([h' k'] & -> & Hin)%list_elem_of_fmap_1 Hn. cbn in Hn.
    apply list_elem_of_singleton in Hn. apply Hlt in Hin. lia.
  - cbn. apply NoDup_singleton.
Qed.

(** The timers once [h] is cleared. *)
Lemma cleared_elem h (s : State) t :
  t ∈ timers (clearInterval h s) ↔ t ∈ timers s ∧ Some (fst t) ≠ h.
Proof.
  cbn. destruct h as [n|].
  - rewrite elem_of_timers_filter. rewrite negb_true_iff, bool_decide_eq_false.
    split; intros [? ?]; split; congruence.
  - split; [by intros ?|by intros [? _]].
Qed.

Lemma timers_ok_fields s s' :
  timers s = timers s' → nextTimer s = nextTimer s' →
  gameInterval s = gameInterval s' → timers_ok s → timers_ok s'.
Proof. unfold timers_ok. intros H1 H2 H3. by rewrite <- H1, <- H2, <- H3. Qed.

Lemma timers_ok_same s s' : clock_of s = clock_of s' → timers_ok s → timers_ok s'.
Proof. unfold clock_of. intros [= H1 H2 H3 _ _]. by apply timers_ok_fields. Qed.

Lemma clock_inv_same s s' : clock_of s = clock_of s' → clock_inv s → clock_inv s'.
Proof.
  intros Heq (Hok & H). split; [by apply (timers_ok_same s)|].
  unfold clock_of in Heq. injection Heq as H1 H2 H3 H4 H5.
  by rewrite <- H1, <- H3, <- H4, <- H5.
Qed.

Lemma timers_ok_cleared h s : timers_ok s → timers_ok (clearInterval h s).
Proof.
  intros (Hlt & Hnd & Hgame). split_and!.
  - intros h' k [Hin _]%cleared_elem. by apply (Hlt h' k).
  - cbn. destruct h; [by apply NoDup_handles_filter|done].
  - intros h' [Hin _]%cleared_elem. by apply Hgame.
Qed.

(** Once [gameInterval] is cleared no game interval is live. *)
Lemma cleared_no_game s h :
  timers_ok s → (h, GameTimer) ∉ timers (clearInterval (gameInterval s) s).
Proof.
  intros (_ & _ & Hgame) [Hin Hne]%cleared_elem. by apply Hne, eq_sym, Hgame.
Qed.

Lemma startGameTimer_clock s : timers_ok s → clock_inv (startGameTimer s).1.
Proof.
  intros Hok.
  assert (Ht : timers (startGameTimer s).1 =
    timers (clearInterval (gameInterval s) s) ++ [(nextTimer s, GameTimer)])
    by reflexivity.
  assert (Hn : nextTimer (startGameTimer s).1 = S (nextTimer s)) by reflexivity.
  assert (Hg : gameInterval (startGameTimer s).1 = Some (nextTimer s)) by reflexivity.
  assert (Hcd : countdown (startGameTimer s).1 = None) by reflexivity.
  assert (Htl : timeLeft (startGameTimer s).1 = 60%Z) by reflexivity.
  pose proof (timers_ok_cleared (gameInterval s) s Hok) as (Hlt & Hnd & _).
  unfold clock_inv, timers_ok. rewrite Ht, Hn, Hg, Hcd, Htl.
  assert (∀ h, (h, GameTimer) ∈
      timers (clearInterval (gameInterval s) s) ++ [(nextTimer s, GameTimer)] →
      h = nextTimer s) as Honly.
  { intros h [Hin|Hin%list_elem_of_singleton]%elem_of_app; [|congruence].
    by apply cleared_no_game in Hin. }
  split_and!; try done.
  - intros h k [Hin|Hin%list_elem_of_singleton]%elem_of_app.
    + apply Hlt in Hin. cbn in Hin. lia.
    + simplify_eq. lia.
  - by apply NoDup_handles_snoc.
  - intros h Hin. by rewrite (Honly h Hin).
  - intros g _ [= <-]. apply elem_of_app. right. by apply list_elem_of_singleton.
Qed.

Lemma endGame_clock s :
  timers_ok s → (0 ≤ timeLeft s ≤ 60)%Z → clock_inv (endGame s).1.
Proof.
  intros Hok Hrange.
  assert (Ht : timers (endGame s).1 =
    timers (clearInterval (gameInterval s) s) ++ [(nextTimer s, CountdownTimer)])
    by reflexivity.
  assert (Hn : nextTimer (endGame s).1 = S (nextTimer s)) by reflexivity.
  assert (Hg : gameInterval (endGame s).1 = gameInterval s) by reflexivity.
  assert (Hcd : countdown (endGame s).1 = Some 10%Z) by reflexivity.
  assert (Htl : timeLeft (endGame s).1 = timeLeft s) by reflexivity.
  pose proof (timers_ok_cleared (gameInterval s) s Hok) as (Hlt & Hnd & _).
  unfold clock_inv, timers_ok. rewrite Ht, Hn, Hg, Hcd, Htl.
  assert (∀ h, (h, GameTimer) ∉
      timers (clearInterval (gameInterval s) s) ++ [(nextTimer s, CountdownTimer)])
    as Hnone.
  { intros h [Hin|Hin%list_elem_of_singleton]%elem_of_app; [|congruence].
    by apply cleared_no_game in Hin. }
  split_and!.
  - intros h k [Hin|Hin%list_elem_of_singleton]%elem_of_app.
    + apply Hlt in Hin. cbn in Hin. lia.
    + simplify_eq. lia.
  - by apply NoDup_handles_snoc.
  - intros h Hin. by apply Hnone in Hin.
  - intros h Hin. by apply Hnone in Hin.
  - lia.
  - lia.
  - intros c [= <-]. lia.
  - done.
Qed.

Lemma clock_tick h s : clock_inv s → clock_inv (tick h s).1.
Proof.
  intros Hinv. unfold tick.
  destruct (timer_kind h (timers s)) as [[]|] eqn:Hk; [| |done].
  - apply timer_kind_elem in Hk.
    destruct Hinv as (Hok & Hlive & Hrange & Hcd & Hact).
    destruct (Hlive h Hk) as [Hnone Hone].
    unfold gameTick, andThen, ifElse. cbn -[endGame].
    case_bool_decide as Hover.
    + apply endGame_clock; [by apply (timers_ok_fields s)|cbn; lia].
    + split; [by apply (timers_ok_fields s)|]. split_and!; cbn; [|lia|lia|done|done].
      intros h' Hin. destruct (Hlive h' Hin). split; [done|lia].
  - destruct Hinv as (Hok & Hlive & Hrange & Hcd & Hact).
    unfold countdownTick, andThen, when. cbn -[startGameTimer].
    destruct (bool_decide _) eqn:Hover.
    + apply startGameTimer_clock. apply timers_ok_cleared.
      by apply (timers_ok_fields s).
    + apply bool_decide_eq_false in Hover.
      destruct (countdown s) as [c|] eqn:Hc; cbn in Hover; [|lia].
      specialize (Hcd c eq_refl).
      split; [by apply (timers_ok_fields s)|]. split_and!; cbn; [|lia|lia| |done].
      * intros h' Hin. destruct (Hlive h' Hin) as [Hn _]. congruence.
      * intros c' [= <-]. lia.
Qed.

Lemma clock_connection socket s : clock_of (connection socket s).1 = clock_of s.
Proof. unfold connection, andThen, ifElse. cbn. by destruct (_ && _). Qed.

Lemma clock_calculateScores s : clock_of (calculateScores s).1 = clock_of s.
Proof. reflexivity. Qed.

Lemma clock_claimSquare socket squareId s :
  clock_of (claimSquare socket squareId s).1 = clock_of s.
Proof.
  unfold claimSquare. destruct (_ || _); [done|].
  destruct (find_by_id _ _); [|done]. by destruct (_ && _).
Qed.

Lemma clock_promote s : clock_of (promote s).1 = clock_of s.
Proof.
  destruct (players s) as [|p rest] eqn:Hps.
  - by destruct (promote_nobody s Hps) as [-> _].
  - unfold promote, andThen. cbn. rewrite Hps. cbn.
    destruct (truthy _); [|done]. by rewrite !bool_decide_true.
Qed.

Lemma clock_joinGame socket data draws s s' out :
  clock_inv s → joinGame socket data draws s = Some (s', out) → clock_inv s'.
Proof.
  intros Hinv. unfold joinGame. destruct (List.find _ _); [by intros [= <- _]|].
  destruct (new_player socket data draws s) as [np|]; [|done].
  cbn [mbind option_bind]. intros [= <- _].
  set (s1 := set_nextRef (S (nextRef s)) (set_players (players s ++ [np]) s)).
  change (clock_inv (calculateScores
    (when (λ s, is_null (gameInterval s)) startGameTimer s1).1).1).
  apply (clock_inv_same (when (λ s, is_null (gameInterval s)) startGameTimer s1).1);
    [done|].
  unfold when. destruct (is_null _).
  - apply startGameTimer_clock. by destruct Hinv.
  - done.
Qed.

Lemma clock_disconnect socket s : clock_inv s → clock_inv (disconnect socket s).1.
Proof.
  intros Hinv.
  set (s1 := set_players (others socket s) s).
  set (s2 := (when (λ s, bool_decide (Some (socket_id socket) = adminId s)) promote s1).1).
  assert (clock_of s2 = clock_of s) as H2.
  { unfold s2, when. destruct (bool_decide _); [|done]. by rewrite clock_promote. }
  assert (clock_inv s2) as Hinv2 by by apply (clock_inv_same s).
  destruct (bool_decide (length (players s2) = 0)) eqn:Hlen.
  - assert ((disconnect socket s).1 =
            set_grid (arr_map initial_square (grid s2))
              (set_countdown None (set_winner WNull (set_timeLeft 60
                (set_gameInterval None (clearInterval (gameInterval s2) s2))))))
      as ->.
    { unfold disconnect, andThen at 1 2, ifElse. cbn -[arr_map when promote].
      fold s1. fold s2. rewrite Hlen. reflexivity. }
    destruct Hinv2 as (Hok & _).
    pose proof (timers_ok_cleared (gameInterval s2) s2 Hok) as (Hlt & Hnd & _).
    split; [split_and!|split_and!]; cbn -[arr_map clearInterval]; try done.
    intros h Hin. by apply cleared_no_game in Hin.
  - assert ((disconnect socket s).1 = (calculateScores s2).1) as ->.
    { unfold disconnect, andThen at 1 2, ifElse.
      cbn -[arr_map when promote calculateScores].
      fold s1. fold s2. rewrite Hlen. reflexivity. }
    by apply (clock_inv_same s2).
Qed.

Lemma clock_step e s s' out : clock_inv s → step e s = Some (s', out) → clock_inv s'.
Proof.
  destruct e as [socket|socket data draws|socket squareId|socket|h];
    cbn [step]; intros Hinv Hstep; [|by eapply clock_joinGame|..];
    apply (inj Some), (f_equal fst) in Hstep; cbn [fst] in Hstep; subst s'.
  - by apply (clock_inv_same s); [rewrite clock_connection|].
  - by apply (clock_inv_same s); [rewrite clock_claimSquare|].
  - by apply clock_disconnect.
  - by apply clock_tick.
Qed.

Lemma clock_initial : clock_inv initial_state.
Proof.
  split; [split_and!|split_and!]; cbn; try done.
  all: try by (intros; exfalso; eapply elem_of_nil; eauto).
  all: try constructor.
Qed.

Lemma reachable_clock s : reachable s → clock_inv s.
Proof.
  intros [es Hrun]. revert Hrun. generalize clock_initial. generalize initial_state.
  induction es as [|e es IH]; intros s0 Hinv; cbn; [by intros [= <-]|].
  destruct (step e s0) as [[s1 out]|] eqn:Hstep; [|done].
  apply IH. by eapply clock_step.
Qed.

Lemma elem_timer_kind h k (ts : list (nat * TimerKind)) :
  NoDup (fst <$> ts) → (h, k) ∈ ts → timer_kind h ts = Some k.
Proof.
  unfold timer_kind. induction ts as [|[h' k'] ts IH]; cbn.
  - by intros _ ?%elem_of_nil.
  - intros [Hh Hnd]%NoDup_cons [Heq|Hin]%elem_of_cons.
    + injection Heq as -> ->. by rewrite bool_decide_true.
    + case_bool_decide as Hd; [|auto]. cbn in Hd. subst h'.
      exfalso. apply Hh. by apply (list_elem_of_fmap_2 fst) in Hin.
Qed.

(** X1. In every reachable state [timeLeft] lies between 0 and 60, and
    [countdown] is [null] or lies between 1 and 10: the values 0 and -1
    that the countdown callback computes are broadcast but never kept. *)
Theorem clocks_in_range s :
  reachable s →
  (0 ≤ timeLeft s ≤ 60)%Z ∧ (∀ c, countdown s = Some c → (1 ≤ c ≤ 10)%Z).
Proof. intros (_ & _ & Hrange & Hcd & _)%reachable_clock. done. Qed.

Lemma clocks_in_range_witness :
  reachable cooling ∧ (0 ≤ timeLeft cooling ≤ 60)%Z ∧
  (∀ c, countdown cooling = Some c → (1 ≤ c ≤ 10)%Z).
Proof.
  assert (reachable cooling) as H.
  { exists (both_join ++ ticks 60 0). vm_compute. reflexivity. }
  split; [exact H|]. exact (clocks_in_range cooling H).
Defined.

(** X2. In every reachable state a live game interval is the one
    [gameInterval] names, so no two game intervals ever run together; and
    while it is live no countdown is shown and at least one second of the
    round is left. *)
Theorem one_game_interval s h :
  reachable s → timer_kind h (timers s) = Some GameTimer →
  gameInterval s = Some h ∧ countdown s = None ∧ (1 ≤ timeLeft s)%Z.
Proof.
  intros ((_ & _ & Hgame) & Hlive & _)%reachable_clock Hk%timer_kind_elem.
  destruct (Hlive h Hk). split; [by apply Hgame|done].
Qed.

Lemma one_game_interval_witness :
  reachable two_players ∧ timer_kind 0 (timers two_players) = Some GameTimer ∧
  gameInterval two_players = Some 0 ∧ countdown two_players = None ∧
  (1 ≤ timeLeft two_players)%Z.
Proof.
  assert (timer_kind 0 (timers two_players) = Some GameTimer) as H
    by (vm_compute; reflexivity).
  split; [exact two_players_reachable|]. split; [exact H|].
  exact (one_game_interval two_players 0 two_players_reachable H).
Defined.

(** X3. In every reachable state the phase is [Active] exactly when a game
    interval is live: a round that was started and is not in its cooldown
    is being timed, and nothing else is. *)
Theorem active_iff_game_interval s :
  reachable s →
  phase s = Active ↔ ∃ h, timer_kind h (timers s) = Some GameTimer.
Proof.
  intros ((_ & Hnd & Hgame) & Hlive & _ & _ & Hact)%reachable_clock. split.
  - unfold phase. destruct (countdown s) eqn:Hc; [done|].
    destruct (gameInterval s) as [g|] eqn:Hg; [|done]. intros _.
    exists g. apply elem_timer_kind; [done|]. by apply Hact.
  - intros [h Hk%timer_kind_elem]. unfold phase.
    destruct (Hlive h Hk) as [-> _]. by rewrite (Hgame h Hk).
Qed.

Lemma active_iff_game_interval_witness :
  reachable cooling ∧ phase cooling ≠ Active ∧
  ¬ ∃ h, timer_kind h (timers cooling) = Some GameTimer.
Proof.
  assert (reachable cooling) as H.
  { exists (both_join ++ ticks 60 0). vm_compute. reflexivity. }
  assert (phase cooling ≠ Active) as Hp by (vm_compute; discriminate).
  split; [exact H|]. split; [exact Hp|].
  intros Hex. apply Hp. exact (proj2 (active_iff_game_interval cooling H) Hex).
Defined.

(** ** The reserved colour *)

Lemma hsl_not_black d : generateRandomColor d ≠ "#000000".
Proof. unfold generateRandomColor. discriminate. Qed.

(** The colour the loop ends with is not in use, and it is the first
    colour or one of the draws. *)
Lemma redraw_spec ps c draws c' :
  redraw ps c draws = Some c' →
  unused ps c' ∧ (c' = c ∨ ∃ d, d ∈ draws ∧ c' = generateRandomColor d).
Proof.
  revert c. induction draws as [|d draws IH]; intros c; cbn.
  - destruct (existsb _ ps) eqn:Hc; [done|]. intros [= <-]. split; [|by left].
    intros p Hp Heq. apply not_true_iff_false in Hc. apply Hc.
    apply existsb_exists. exists p. split; [by apply list_elem_of_In|].
    by apply bool_decide_eq_true.
  - destruct (existsb _ ps) eqn:Hc.
    + intros [Hfree [->|(d' & Hd & ->)]]%IH; (split; [done|right]).
      * exists d. split; [constructor|done].
      * exists d'. split; [by constructor|done].
    + intros [= <-]. split; [|by left].
      intros p Hp Heq. apply not_true_iff_false in Hc. apply Hc.
      apply existsb_exists. exists p. split; [by apply list_elem_of_In|].
      by apply bool_decide_eq_true.
Qed.

Lemma new_player_color socket data draws s np :
  new_player socket data draws s = Some np →
  if bool_decide (Some (socket_id socket) = adminId s)
  then Player.color np = "#000000"
  else Player.color np ≠ "#000000" ∧
       (data_color data ≠ "#000000" → Player.color np = data_color data) ∧
       (data_color data = "#000000" →
          unused (players s) (Player.color np) ∧
          ∃ d, d ∈ draws ∧ Player.color np = generateRandomColor d).
Proof.
  unfold new_player. case_bool_decide as Hadm; [by intros [= <-]|].
  cbn. case_bool_decide as Hcol.
  - destruct draws as [|d rest]; [done|].
    destruct (redraw _ _ _) as [c|] eqn:Hr; [|done]. cbn. intros [= <-]. cbn.
    apply redraw_spec in Hr as [Hfree Hfrom].
    assert (∃ d', d' ∈ d :: rest ∧ c = generateRandomColor d') as (d' & Hd & ->).
    { destruct Hfrom as [->|(d' & Hd & ->)].
      - exists d. split; [constructor|done].
      - exists d'. split; [by constructor|done]. }
    split_and!; [apply hsl_not_black|done|eauto].
  - intros [= <-]. cbn. split_and!; done.
Qed.

Lemma tags_calculateScores s : tags (calculateScores s).1 = tags s.
Proof. unfold tags. cbn. by rewrite <- list_fmap_compose. Qed.

Lemma tags_startGameTimer s : tags (startGameTimer s).1 = tags s.
Proof. unfold tags. cbn. by rewrite <- list_fmap_compose. Qed.

Lemma tags_endGame s : tags (endGame s).1 = tags s.
Proof. unfold tags. cbn. by rewrite <- list_fmap_compose. Qed.

Lemma joinGame_tags socket data draws s np :
  (∀ p, p ∈ players s → Player.name p ≠ data_name data) →
  new_player socket data draws s = Some np →
  ∃ s' out, joinGame socket data draws s = Some (s', out) ∧
    tags s' = tags s ++ [(socket_id socket, Player.color np)] ∧
    adminId s' = adminId s.
Proof.
  intros Hfree Hnp. unfold joinGame.
  rewrite find_none_elem; last first.
  { intros p Hp. apply bool_decide_eq_false. by apply Hfree. }
  rewrite Hnp. cbn [mbind option_bind].
  match goal with |- context [Some (?h s)] => set (r := h s) end.
  exists r.1, r.2. split; [by destruct r|]. subst r.
  rewrite <- (new_player_id _ _ _ _ _ Hnp).
  unfold tags. cbn. unfold when. cbn.
  destruct (gameInterval s) eqn:Hg; cbn;
    rewrite <- !list_fmap_compose, !fmap_app; cbn; by split.
Qed.



Lemma black_inv_same s s' :
  tags s = tags s' → adminId s = adminId s' → black_inv s → black_inv s'.
Proof. unfold black_inv. by intros <- <-. Qed.

Lemma promote_falsy s p rest :
  players s = p :: rest → Player.id p = "" →
  promote s = (set_adminId (Some "") s, []).
Proof.
  intros Hps Hid. unfold promote, andThen. cbn. rewrite Hps. cbn. by rewrite Hid.
Qed.

Lemma tags_others socket s t :
  t ∈ tags (set_players (others socket s) s) → t ∈ tags s ∧ t.1 ≠ socket_id socket.
Proof.
  unfold tags, others. cbn. intros (p & -> & Hp)%list_elem_of_fmap_1.
  apply list_elem_of_In, filter_In in Hp as [Hp Hne].
  apply negb_true_iff, bool_decide_eq_false in Hne. split; [|done].
  by apply (list_elem_of_fmap_2 (λ p, (Player.id p, Player.color p))), list_elem_of_In.
Qed.

Lemma black_promote s :
  (∀ i, (i, "#000000") ∉ tags s) → black_inv (promote s).1.
Proof.
  intros Hnone. destruct (players s) as [|p rest] eqn:Hps.
  - destruct (promote_nobody s Hps) as [-> _]. intros i Hi. by apply Hnone in Hi.
  - destruct (decide (Player.id p = "")) as [Hid|Hid].
    + rewrite (promote_falsy s p rest) by done. intros i Hi. by apply Hnone in Hi.
    + rewrite (promote_head s p rest) by done. unfold promoted, black_inv, tags.
      cbn -[arr_set]. intros i [Hi|Hi]%elem_of_cons; [congruence|].
      exfalso. apply (Hnone i). unfold tags. rewrite Hps. cbn. by constructor.
Qed.

Lemma black_disconnect socket s : black_inv s → black_inv (disconnect socket s).1.
Proof.
  intros Hinv.
  set (s1 := set_players (others socket s) s).
  set (s2 := (when (λ s, bool_decide (Some (socket_id socket) = adminId s)) promote s1).1).
  assert (black_inv s2) as H2.
  { unfold s2, when. case_bool_decide as Hadm.
    - apply black_promote. intros i [Hi Hne]%tags_others. cbn in Hne, Hadm.
      apply Hinv in Hi. congruence.
    - intros i [Hi _]%tags_others. by apply Hinv. }
  destruct (bool_decide (length (players s2) = 0)) eqn:Hlen.
  - assert (players (disconnect socket s).1 = []) as Hp.
    { unfold disconnect, andThen at 1 2, ifElse. cbn -[arr_map when promote].
      fold s1. fold s2. rewrite Hlen. cbn.
      by apply bool_decide_eq_true, nil_length_inv in Hlen. }
    intros i. unfold tags. rewrite Hp. by intros ?%elem_of_nil.
  - assert ((disconnect socket s).1 = (calculateScores s2).1) as ->.
    { unfold disconnect, andThen at 1 2, ifElse.
      cbn -[arr_map when promote calculateScores].
      fold s1. fold s2. rewrite Hlen. reflexivity. }
    apply (black_inv_same s2); [by rewrite tags_calculateScores|done|done].
Qed.

Lemma black_connection socket s : black_inv s → black_inv (connection socket s).1.
Proof.
  intros Hinv. unfold connection, andThen, ifElse. cbn.
  destruct (bool_decide (length (players s) = 0)) eqn:Hlen; cbn; [|done].
  destruct (negb _); [|done]. cbn.
  apply bool_decide_eq_true, nil_length_inv in Hlen.
  intros i. unfold tags. cbn. rewrite Hlen. by intros ?%elem_of_nil.
Qed.

Lemma black_joinGame socket data draws s s' out :
  black_inv s → joinGame socket data draws s = Some (s', out) → black_inv s'.
Proof.
  intros Hinv Hjoin.
  destruct (List.find (λ p, bool_decide (Player.name p = data_name data)) (players s))
    as [p|] eqn:Hfind.
  { unfold joinGame in Hjoin. rewrite Hfind in Hjoin. by injection Hjoin as <- _. }
  assert (∀ p, p ∈ players s → Player.name p ≠ data_name data) as Hfree.
  { intros p Hp%list_elem_of_In. apply (find_none _ _ Hfind) in Hp.
    by apply bool_decide_eq_false in Hp. }
  destruct (new_player socket data draws s) as [np|] eqn:Hnp; last first.
  { unfold joinGame in Hjoin. by rewrite Hfind, Hnp in Hjoin. }
  destruct (joinGame_tags socket data draws s np Hfree Hnp) as (s1 & out1 & Hj & Ht & Ha).
  rewrite Hj in Hjoin. injection Hjoin as <- _.
  intros i. rewrite Ht, Ha. intros [Hi|Hi%list_elem_of_singleton]%elem_of_app.
  - by apply Hinv.
  - injection Hi as -> Hc. pose proof (new_player_color _ _ _ _ _ Hnp) as Hcol.
    case_bool_decide; [done|]. by destruct Hcol.
Qed.

Lemma black_claimSquare socket squareId s :
  black_inv s → black_inv (claimSquare socket squareId s).1.
Proof.
  intros Hinv. unfold claimSquare. destruct (_ || _); [done|].
  destruct (find_by_id _ _) as [player|]; [|done].
  destruct (_ && _); [done|].
  change (black_inv (calculateScores
    (set_grid (arr_set squareId (claimed squareId player) (grid s)) s)).1).
  apply (black_inv_same s); [by rewrite tags_calculateScores|done|done].
Qed.

Lemma black_tick h s : black_inv s → black_inv (tick h s).1.
Proof.
  intros Hinv. unfold tick. destruct (timer_kind h (timers s)) as [[]|]; [| |done].
  - unfold gameTick, andThen, ifElse. cbn -[endGame].
    destruct (bool_decide _); [|done].
    apply (black_inv_same s); [by rewrite tags_endGame|done|done].
  - unfold countdownTick, andThen, when. cbn -[startGameTimer].
    destruct (bool_decide _); [|done].
    apply (black_inv_same s); [|done|done].
    unfold tags. cbn. by rewrite <- list_fmap_compose.
Qed.

(** X5. In every reachable state a player whose colour is [#000000] has
    the id of the admin connection: the join handler gives the colour to
    the admin only, and a promotion follows the departure of every entry of
    the former admin. *)
Theorem black_is_admin s p :
  reachable s → p ∈ players s → Player.color p = "#000000" →
  adminId s = Some (Player.id p).
Proof.
  intros [es Hrun] Hp Hc.
  assert (black_inv s) as Hinv.
  { revert Hrun. assert (black_inv initial_state) as Hinit by by intros i ?%elem_of_nil.
    revert Hinit. generalize initial_state.
    induction es as [|e es IH]; intros s0 Hinv; cbn; [by intros [= <-]|].
    destruct (step e s0) as [[s1 out]|] eqn:Hstep; [|done]. apply IH.
    destruct e as [socket|socket data draws|socket squareId|socket|h];
      cbn [step] in Hstep; [|by eapply black_joinGame|..];
      apply (inj Some), (f_equal fst) in Hstep; cbn [fst] in Hstep; subst s1.
    - by apply black_connection.
    - by apply black_claimSquare.
    - by apply black_disconnect.
    - by apply black_tick. }
  apply Hinv. unfold tags. rewrite <- Hc.
  by apply (list_elem_of_fmap_2 (λ p, (Player.id p, Player.color p))).
Qed.

Lemma black_is_admin_witness :
  reachable two_players ∧ alice_joined ∈ players two_players ∧
  adminId two_players = Some "sockA".
Proof.
  assert (alice_joined ∈ players two_players) as H
    by (vm_compute; apply list_elem_of_here).
  split; [exact two_players_reachable|]. split; [exact H|].
  exact (black_is_admin two_players alice_joined two_players_reachable H eq_refl).
Defined.

(** ** Rounds and the roster *)

(** X6. In every reachable state with a player in the roster a round has
    been started (the phase is not [Lobby]), and a winner is shown during
    the cooldown only. *)
Theorem players_need_round s :
  reachable s →
  (players s ≠ [] → phase s ≠ Lobby) ∧ (winner s ≠ WNull → phase s = Cooldown).
Proof.
  intros [Hg Hw]%reachable_session. unfold phase. split.
  - intros Hps. destruct (countdown s); [done|].
    destruct (gameInterval s); [done|]. by destruct Hps; apply Hg.
  - intros Hwin. destruct (countdown s); [done|]. by destruct Hwin; apply Hw.
Qed.

Lemma players_need_round_witness :
  reachable cooling ∧ players cooling ≠ [] ∧ winner cooling ≠ WNull ∧
  phase cooling ≠ Lobby ∧ phase cooling = Cooldown.
Proof.
  assert (reachable cooling) as Hr by (exists (both_join ++ ticks 60 0); vm_compute; reflexivity).
  assert (players cooling ≠ []) as Hp by (vm_compute; discriminate).
  assert (winner cooling ≠ WNull) as Hw by (vm_compute; discriminate).
  split; [exact Hr|]. split; [exact Hp|]. split; [exact Hw|].
  destruct (players_need_round cooling Hr) as [H1 H2].
  split; [exact (H1 Hp)|exact (H2 Hw)].
Defined.

(** ** The shape of the grid *)

Lemma arr_set_shape k v a :
  Cell.id v = k → grid_shape a → grid_shape (arr_set k v a).
Proof.
  intros Hid [Hfull Hids]. unfold arr_set, is_index.
  destruct (bool_decide (0 ≤ k)%Z) eqn:H0; cbn [andb]; [|done].
  destruct (bool_decide (k < 2 ^ 32 - 1)%Z); [|done].
  apply bool_decide_eq_true in H0.
  assert (Z.of_nat (Z.to_nat k) = k) as Hk by lia.
  case_bool_decide as Hlt; split; cbn.
  - intros i Hi. destruct (decide (Z.to_nat k = i)) as [<-|Hne].
    + rewrite list_lookup_insert_eq by done. eauto.
    + rewrite list_lookup_insert_ne by done. auto.
  - intros i c [(<- & [= <-] & _)|[_ Hc]]%list_lookup_insert_Some; [congruence|auto].
  - intros i Hi. destruct (Hfull i Hi) as [c Hc]. exists c.
    by apply lookup_app_l_Some.
  - intros i c [Hc|[Hle [Hc|[Hle' Hc]]%lookup_app_Some]]%lookup_app_Some; [auto|..].
    + by apply lookup_replicate_1 in Hc as [? _].
    + rewrite length_replicate in Hle', Hc.
      apply list_lookup_singleton_Some in Hc as [Hi [= <-]].
      rewrite Hid, <- Hk. f_equal. lia.
Qed.

Lemma arr_map_shape (f : Cell.t → nat → Cell.t) a :
  (∀ sq i, Cell.id (f sq i) = Z.of_nat i) → grid_shape a → grid_shape (arr_map f a).
Proof.
  intros Hf [Hfull Hids]. split; cbn.
  - intros i Hi. destruct (Hfull i Hi) as [c Hc].
    rewrite list_lookup_imap, Hc. cbn. eauto.
  - intros i c. rewrite list_lookup_imap.
    destruct (elems a !! i) as [[sq|]|]; cbn; [|done..]. intros [= <-]. apply Hf.
Qed.

Lemma reset_square_id s sq i : Cell.id (reset_square s sq i) = Z.of_nat i.
Proof. unfold reset_square. by case_bool_decide; subst. Qed.

Lemma initial_square_id sq i : Cell.id (initial_square sq i) = Z.of_nat i.
Proof. unfold initial_square. by case_bool_decide; subst. Qed.

Lemma shape_initial : grid_shape initial_grid.
Proof.
  apply arr_set_shape; [done|]. split; cbn -[replicate].
  - intros i Hi. rewrite list_lookup_imap, lookup_replicate_2 by done. cbn. eauto.
  - intros i c. rewrite list_lookup_imap.
    destruct (replicate 100 () !! i); cbn; [|done]. by intros [= <-].
Qed.

Lemma shape_startGameTimer s :
  grid_shape (grid s) → grid_shape (grid (startGameTimer s).1).
Proof. intros H. cbn -[arr_map]. apply arr_map_shape; [apply reset_square_id|done]. Qed.

Lemma shape_promote s : grid_shape (grid s) → grid_shape (grid (promote s).1).
Proof.
  intros H. destruct (players s) as [|p rest] eqn:Hps.
  - by destruct (promote_nobody s Hps) as [-> _].
  - destruct (decide (Player.id p = "")) as [Hid|Hid].
    + by rewrite (promote_falsy s p rest).
    + rewrite (promote_head s p rest) by done. unfold promoted. cbn -[arr_set].
      by apply arr_set_shape.
Qed.

Lemma shape_disconnect socket s :
  grid_shape (grid s) → grid_shape (grid (disconnect socket s).1).
Proof.
  intros H.
  set (s1 := set_players (others socket s) s).
  set (s2 := (when (λ s, bool_decide (Some (socket_id socket) = adminId s)) promote s1).1).
  assert (grid_shape (grid s2)) as H2.
  { unfold s2, when. destruct (bool_decide _); [by apply shape_promote|done]. }
  assert (grid (disconnect socket s).1 =
          if bool_decide (length (players s2) = 0)
          then arr_map initial_square (grid s2) else grid s2) as ->.
  { unfold disconnect, andThen at 1 2, ifElse.
    cbn -[arr_map when promote calculateScores]. fold s1. fold s2.
    by destruct (bool_decide (length (players s2) = 0)). }
  destruct (bool_decide _); [|done].
  apply arr_map_shape; [apply initial_square_id|done].
Qed.

Lemma shape_joinGame socket data draws s s' out :
  grid_shape (grid s) → joinGame socket data draws s = Some (s', out) →
  grid_shape (grid s').
Proof.
  intros H. unfold joinGame. destruct (List.find _ _); [by intros [= <- _]|].
  destruct (new_player socket data draws s) as [np|]; [|done].
  cbn [mbind option_bind]. intros [= <- _].
  set (s1 := set_nextRef (S (nextRef s)) (set_players (players s ++ [np]) s)).
  change (grid_shape (grid (when (λ s, is_null (gameInterval s)) startGameTimer s1).1)).
  unfold when. destruct (is_null _); [|done]. by apply shape_startGameTimer.
Qed.

Lemma shape_claimSquare socket squareId s :
  grid_shape (grid s) → grid_shape (grid (claimSquare socket squareId s).1).
Proof.
  intros H. unfold claimSquare. destruct (_ || _); [done|].
  destruct (find_by_id _ _) as [player|]; [|done].
  destruct (_ && _); [done|].
  change (grid_shape (arr_set squareId (claimed squareId player) (grid s))).
  by apply arr_set_shape.
Qed.

Lemma shape_tick h s : grid_shape (grid s) → grid_shape (grid (tick h s).1).
Proof.
  intros H. unfold tick. destruct (timer_kind h (timers s)) as [[]|]; [| |done].
  - unfold gameTick, andThen, ifElse. cbn -[endGame].
    by destruct (bool_decide _).
  - unfold countdownTick, andThen, when. cbn -[startGameTimer].
    destruct (bool_decide _); [|done].
    cbn -[arr_map]. apply arr_map_shape; [apply reset_square_id|done].
Qed.

Lemma shape_connection socket s :
  grid_shape (grid s) → grid_shape (grid (connection socket s).1).
Proof.
  intros H. unfold connection, andThen, ifElse. cbn. by destruct (_ && _).
Qed.

Lemma reachable_shape s : reachable s → grid_shape (grid s).
Proof.
  intros [es Hrun]. revert Hrun. generalize shape_initial.
  change initial_grid with (grid initial_state). generalize initial_state.
  induction es as [|e es IH]; intros s0 Hinv; cbn; [by intros [= <-]|].
  destruct (step e s0) as [[s1 out]|] eqn:Hstep; [|done]. apply IH.
  destruct e as [socket|socket data draws|socket squareId|socket|h];
    cbn [step] in Hstep; [|by eapply shape_joinGame|..];
    apply (inj Some), (f_equal fst) in Hstep; cbn [fst] in Hstep; subst s1.
  - by apply shape_connection.
  - by apply shape_claimSquare.
  - by apply shape_disconnect.
  - by apply shape_tick.
Qed.



(** ** Claims, joins and departures *)

Lemma tags_claimSquare socket squareId s :
  tags (claimSquare socket squareId s).1 = tags s ∧
  adminId (claimSquare socket squareId s).1 = adminId s.
Proof.
  unfold claimSquare. destruct (_ || _); [done|].
  destruct (find_by_id _ _) as [player|]; [|done].
  destruct (_ && _); [done|].
  change (tags (calculateScores
            (set_grid (arr_set squareId (claimed squareId player) (grid s)) s)).1 = tags s ∧
          adminId s = adminId s).
  by rewrite tags_calculateScores.
Qed.

(** X8. An accepted claim of one of the hundred squares overwrites that
    cell with the claimer's colour, id and name, whoever held it before,
    and changes no other cell; the roster keeps its ids and colours, and
    the admin, the timers and the clocks stay as they are. *)
Theorem claim_takes_cell socket squareId s player :
  reachable s → phase s = Active →
  find_by_id (Some (socket_id socket)) (players s) = Some player →
  squareId ≠ 0%Z ∨ adminId s = Some (socket_id socket) →
  (0 ≤ squareId < 100)%Z →
  let s' := (claimSquare socket squareId s).1 in
  elems (grid s') =
    <[Z.to_nat squareId := Some (claimed squareId player)]> (elems (grid s)) ∧
  props (grid s') = props (grid s) ∧
  tags s' = tags s ∧ adminId s' = adminId s ∧ clock_of s' = clock_of s.
Proof.
  intros Hr Hphase Hfind Hok Hrange s'.
  destruct (claimSquare_accepted socket squareId s player Hr Hphase Hfind Hok)
    as [Hg _]. fold s' in Hg.
  destruct (tags_claimSquare socket squareId s) as [Ht Ha].
  split_and!; [| |exact Ht|exact Ha|apply clock_claimSquare].
  - rewrite Hg. unfold arr_set, is_index.
    rewrite !bool_decide_true by lia. cbn.
    destruct (reachable_shape s Hr) as [Hfull _].
    destruct (Hfull (Z.to_nat squareId)) as [c Hc]; [lia|].
    apply lookup_lt_Some in Hc. by rewrite bool_decide_true.
  - rewrite Hg. unfold arr_set, is_index. by rewrite !bool_decide_true by lia.
Qed.

Lemma claim_takes_cell_witness :
  reachable two_players ∧ phase two_players = Active ∧
  elems (grid (claimSquare sockB 7 two_players).1) =
    <[7 := Some (Cell.mk 7 "#00ff00" "sockB" "Bob")]> (elems (grid two_players)).
Proof.
  assert (phase two_players = Active) as Hp by (vm_compute; reflexivity).
  assert (find_by_id (Some (socket_id sockB)) (players two_players) = Some bob_joined)
    as Hf by (vm_compute; reflexivity).
  split; [exact two_players_reachable|]. split; [exact Hp|].
  refine (proj1 (claim_takes_cell sockB 7 two_players bob_joined
                   two_players_reachable Hp Hf (or_introl _) _)); lia.
Defined.

Lemma entries_filter (f : Player.t → string * string) (sid : string) ps :
  (∀ p, (f p).1 = Player.id p) →
  f <$> List.filter (λ p, negb (bool_decide (Player.id p = sid))) ps =
  filter (λ e, e.1 ≠ sid) (f <$> ps).
Proof.
  intros Hf. induction ps as [|p ps IH]; [done|].
  rewrite fmap_cons, filter_cons, Hf. cbn [List.filter].
  case_bool_decide; cbn [negb].
  - by rewrite decide_False by auto.
  - rewrite decide_True by done. by rewrite fmap_cons, IH.
Qed.

Lemma entries_promote s :
  (λ p, (Player.id p, Player.name p)) <$> players (promote s).1 =
  (λ p, (Player.id p, Player.name p)) <$> players s.
Proof.
  destruct (players s) as [|p rest] eqn:Hps.
  - destruct (promote_nobody s Hps) as [-> _]. cbn. by rewrite Hps.
  - destruct (decide (Player.id p = "")) as [Hid|Hid].
    + rewrite (promote_falsy s p rest) by done. cbn. by rewrite Hps.
    + by rewrite (promote_head s p rest) by done.
Qed.

(** X9. A disconnect removes from the roster every entry of the
    connection (there are several when it joined more than once) and no
    other: the ids and names that remain are those of the other
    connections, in their order. *)
Theorem disconnect_removes_connection socket s :
  (λ p, (Player.id p, Player.name p)) <$> players (disconnect socket s).1 =
  filter (λ e, e.1 ≠ socket_id socket)
    ((λ p, (Player.id p, Player.name p)) <$> players s).
Proof.
  rewrite <- (entries_filter _ (socket_id socket)) by done. fold (others socket s).
  set (s1 := set_players (others socket s) s).
  set (s2 := (when (λ s, bool_decide (Some (socket_id socket) = adminId s)) promote s1).1).
  assert ((λ p, (Player.id p, Player.name p)) <$> players s2 =
          (λ p, (Player.id p, Player.name p)) <$> others socket s) as H2.
  { unfold s2, when. destruct (bool_decide _); [|done]. by rewrite entries_promote. }
  rewrite <- H2.
  destruct (bool_decide (length (players s2) = 0)) eqn:Hlen.
  - assert (players (disconnect socket s).1 = players s2) as ->; [|done].
    unfold disconnect, andThen at 1 2, ifElse. cbn -[arr_map when promote].
    fold s1. fold s2. by rewrite Hlen.
  - assert ((disconnect socket s).1 = (calculateScores s2).1) as ->.
    { unfold disconnect, andThen at 1 2, ifElse.
      cbn -[arr_map when promote calculateScores].
      fold s1. fold s2. rewrite Hlen. reflexivity. }
    cbn. by rewrite <- list_fmap_compose.
Qed.



Lemma names_others socket s :
  names (set_players (others socket s) s) ⊆ names s.
Proof.
  unfold names, others. cbn. intros n (p & -> & Hp)%list_elem_of_fmap_1.
  apply list_elem_of_In, filter_In in Hp as [Hp _].
  by apply list_elem_of_fmap_2, list_elem_of_In.
Qed.

Lemma names_after_disconnect socket s : names (disconnect socket s).1 ⊆ names s.
Proof.
  set (s1 := set_players (others socket s) s).
  set (s2 := (when (λ s, bool_decide (Some (socket_id socket) = adminId s)) promote s1).1).
  assert (names s2 ⊆ names s) as H2.
  { unfold s2, when. destruct (bool_decide _); [|apply names_others].
    rewrite names_promote. apply names_others. }
  destruct (bool_decide (length (players s2) = 0)) eqn:Hlen.
  - assert (players (disconnect socket s).1 = []) as Hp.
    { unfold disconnect, andThen at 1 2, ifElse. cbn -[arr_map when promote].
      fold s1. fold s2. rewrite Hlen. cbn.
      by apply bool_decide_eq_true, nil_length_inv in Hlen. }
    unfold names. rewrite Hp. by intros n ?%elem_of_nil.
  - assert ((disconnect socket s).1 = (calculateScores s2).1) as ->.
    { unfold disconnect, andThen at 1 2, ifElse.
      cbn -[arr_map when promote calculateScores].
      fold s1. fold s2. rewrite Hlen. reflexivity. }
    by rewrite names_calculateScores.
Qed.

Lemma length_substring_0 n x :
  String.length (String.substring 0 n x) = Nat.min n (String.length x).
Proof.
  revert x. induction n as [|n IH]; intros [|c x]; cbn; [done..|]. by rewrite IH.
Qed.

Lemma names_after_joinGame socket data draws s s' out n :
  joinGame socket data draws s = Some (s', out) → n ∈ names s' →
  n ∈ names s ∨ n = String.substring 0 15 (data_name data).
Proof.
  intros Hjoin Hn.
  destruct (List.find (λ p, bool_decide (Player.name p = data_name data)) (players s))
    as [p|] eqn:Hfind.
  { unfold joinGame in Hjoin. rewrite Hfind in Hjoin. injection Hjoin as <- _.
    by left. }
  assert (∀ p, p ∈ players s → Player.name p ≠ data_name data) as Hfree.
  { intros p Hp%list_elem_of_In. apply (find_none _ _ Hfind) in Hp.
    by apply bool_decide_eq_false in Hp. }
  destruct (new_player socket data draws s) as [np|] eqn:Hnp; last first.
  { unfold joinGame in Hjoin. by rewrite Hfind, Hnp in Hjoin. }
  destruct (joinGame_free socket data draws s np Hfree Hnp)
    as (s1 & out1 & Hj & _ & Hnames & _).
  rewrite Hj in Hjoin. injection Hjoin as <- _.
  unfold names in *. rewrite Hnames in Hn.
  apply elem_of_app in Hn as [Hn|Hn%list_elem_of_singleton]; [by left|right].
  by rewrite Hn, (new_player_name _ _ _ _ _ Hnp).
Qed.

(** X11. No name of the roster has more than 15 characters, in any
    reachable state: a join stores the first 15 characters of the name
    sent, and no handler changes a name afterwards. *)
Theorem names_at_most_15 s p :
  reachable s → p ∈ players s → (String.length (Player.name p) ≤ 15)%nat.
Proof.
  intros [es Hrun] Hp.
  assert (∀ n, n ∈ names s → (String.length n ≤ 15)%nat) as Hall.
  { revert Hrun.
    assert (∀ n, n ∈ names initial_state → (String.length n ≤ 15)%nat) as Hinit
      by by intros n ?%elem_of_nil.
    revert Hinit. generalize initial_state.
    induction es as [|e es IH]; intros s0 Hinv; cbn; [by intros [= <-]|].
    destruct (step e s0) as [[s1 out]|] eqn:Hstep; [|done]. apply IH.
    intros n Hn.
    destruct e as [socket|socket data draws|socket squareId|socket|h];
      cbn [step] in Hstep.
    - apply (inj Some), (f_equal fst) in Hstep. cbn [fst] in Hstep. subst s1.
      apply Hinv. by rewrite names_connection in Hn.
    - destruct (names_after_joinGame _ _ _ _ _ _ n Hstep Hn) as [Hold| ->]; [auto|].
      rewrite length_substring_0. lia.
    - apply (inj Some), (f_equal fst) in Hstep. cbn [fst] in Hstep. subst s1.
      apply Hinv. by rewrite names_claimSquare in Hn.
    - apply (inj Some), (f_equal fst) in Hstep. cbn [fst] in Hstep. subst s1.
      apply Hinv. by apply (names_after_disconnect socket).
    - apply (inj Some), (f_equal fst) in Hstep. cbn [fst] in Hstep. subst s1.
      apply Hinv. by rewrite names_tick in Hn. }
  apply Hall. unfold names. by apply list_elem_of_fmap_2.
Qed.

Lemma names_at_most_15_witness :
  reachable (after long_name_joins) ∧
  Player.name <$> players (after long_name_joins) =
    ["Bartholomew the"; "Bartholomew the"] ∧
  ∀ p, p ∈ players (after long_name_joins) →
    (String.length (Player.name p) ≤ 15)%nat.
Proof.
  assert (reachable (after long_name_joins)) as Hr
    by (exists long_name_joins; vm_compute; reflexivity).
  split; [exact Hr|]. split; [vm_compute; reflexivity|].
  intros p Hp. exact (names_at_most_15 (after long_name_joins) p Hr Hp).
Defined.

(** ** The admin square *)
















(** ** The country of a connection *)

Lemma first_field_app a rest :
  comma ∉ String.list_ascii_of_string a →
  first_field (a +:+ String comma rest) = a.
Proof.
  induction a as [|c a IH]; cbn; intros Hc.
  - unfold String.append. cbn. by rewrite bool_decide_true.
  - apply not_elem_of_cons in Hc as [Hne Hc].
    change (String c a +:+ String comma rest) with (String c (a +:+ String comma rest)).
    cbn. rewrite bool_decide_false by done. by rewrite IH.
Qed.

Lemma first_field_whole a :
  comma ∉ String.list_ascii_of_string a → first_field a = a.
Proof.
  induction a as [|c a IH]; cbn; intros Hc; [done|].
  apply not_elem_of_cons in Hc as [Hne Hc].
  rewrite bool_decide_false by done. by rewrite IH.
Qed.

Lemma country_or_nonempty geo d : d ≠ "" → country_or geo d ≠ "".
Proof.
  intros Hd. destruct geo as [[c]|]; cbn; [|done].
  unfold or_else, truthy. by case_bool_decide.
Qed.

(** X13. [getCountryFromIP] never returns an empty code or name: when the
    lookup knows the address and gives a non-empty country, code and name
    are both that country code; in every other case (unknown address, empty
    country) they are ['xx'] and ['Unknown']. *)
Theorem getCountryFromIP_fallback lookup h :
  let r := getCountryFromIP lookup h in
  code r ≠ "" ∧ country_name r ≠ "" ∧
  match lookup (cleanIP h) with
  | Some g =>
      if bool_decide (geo_country g = "")
      then r = {| code := "xx"; country_name := "Unknown" |}
      else r = {| code := geo_country g; country_name := geo_country g |}
  | None => r = {| code := "xx"; country_name := "Unknown" |}
  end.
Proof.
  intros r. unfold r, getCountryFromIP. cbn [code country_name].
  split_and!; [by apply country_or_nonempty..|].
  destruct (lookup (cleanIP h)) as [[c]|]; cbn [country_or geo_country]; [|done].
  unfold or_else, truthy. by case_bool_decide.
Qed.

(** X14. Behind proxies only the first entry of the [x-forwarded-for] list
    counts: with a non-empty first entry, what follows the first comma and
    the remote address of the connection have no influence on the
    result. *)
Theorem getCountryFromIP_first_forwarded lookup a rest remote remote' :
  a ≠ "" → comma ∉ String.list_ascii_of_string a →
  getCountryFromIP lookup
    {| forwarded_for := Some (a +:+ String comma rest); remote_address := remote |} =
  getCountryFromIP lookup {| forwarded_for := Some a; remote_address := remote' |}.
Proof.
  intros Ha Hc. unfold getCountryFromIP, cleanIP, clientIP. cbn.
  rewrite first_field_app, first_field_whole by done.
  assert (truthy (a +:+ String comma rest) = true) as ->.
  { unfold truthy. rewrite bool_decide_false; [done|]. by destruct a. }
  assert (truthy a = true) as ->; [|done].
  unfold truthy. by rewrite bool_decide_false.
Qed.

Lemma getCountryFromIP_first_forwarded_witness :
  getCountryFromIP (one_address "203.0.113.7" "AU") proxied =
    {| code := "AU"; country_name := "AU" |} ∧
  getCountryFromIP (one_address "203.0.113.7" "AU")
    {| forwarded_for := Some " 203.0.113.7 "; remote_address := "" |} =
    {| code := "AU"; country_name := "AU" |}.
Proof.
  assert (" 203.0.113.7 " ≠ "") as H1 by discriminate.
  assert (comma ∉ String.list_ascii_of_string " 203.0.113.7 ") as H2.
  { intros H. cbn in H.
    repeat (apply elem_of_cons in H as [H|H]; [discriminate|]).
    by apply elem_of_nil in H. }
  pose proof (getCountryFromIP_first_forwarded (one_address "203.0.113.7" "AU")
                " 203.0.113.7 " " 10.0.0.1" "::ffff:10.0.0.2" "" H1 H2) as H.
  split; [exact (eq_trans H eq_refl)|reflexivity].
Defined.

Lemma strip_prefix_app p x : strip_prefix p (p +:+ x) = Some x.
Proof.
  induction p as [|a p IH]; [done|].
  change (String a p +:+ x) with (String a (p +:+ x)). cbn.
  by rewrite bool_decide_true.
Qed.

(** X15. Without a forwarded header the remote address is looked up, with
    the two clean-ups of the function: the loopback address [::1] is looked
    up as [127.0.0.1], and an IPv4-mapped address [::ffff:a] as [a]; the
    prefix is removed once and after the loopback test, so [::ffff:::1] is
    looked up as [::1]. *)
Theorem cleanIP_remote h a :
  (forwarded_for h = None ∨ forwarded_for h = Some "") →
  (remote_address h = "::1" → cleanIP h = "127.0.0.1") ∧
  (remote_address h = "::ffff:" +:+ a → cleanIP h = a) ∧
  (strip_prefix "::ffff:" (remote_address h) = None → remote_address h ≠ "::1" →
   cleanIP h = remote_address h).
Proof.
  intros Hf.
  assert (clientIP h = remote_address h) as Hc.
  { unfold clientIP. by destruct Hf as [-> | ->]. }
  unfold cleanIP. rewrite Hc. split_and!.
  - by intros ->.
  - intros ->. rewrite bool_decide_false by done. unfold unmap.
    by rewrite strip_prefix_app.
  - intros Hp Hne. rewrite bool_decide_false by done. unfold unmap. by rewrite Hp.
Qed.

Lemma cleanIP_remote_witness :
  cleanIP {| forwarded_for := None; remote_address := "::ffff:::1" |} = "::1".
Proof.
  exact (proj1 (proj2 (cleanIP_remote
           {| forwarded_for := None; remote_address := "::ffff:::1" |} "::1"
           (or_introl eq_refl))) eq_refl).
Defined.

(** ** The fixed admin entry of the variant *)

Lemma unowned_cells (i : string) (l : list (option Cell.t)) :
  (∀ j c, l !! j = Some (Some c) → Cell.ownerId c ≠ i) →
  count_cells i (omap (λ o, o) l) = 0.
Proof.
  induction l as [|o l IH]; intros H; [done|].
  assert (count_cells i (omap (λ o, o) l) = 0) as Hl.
  { apply IH. intros j c Hj. by apply (H (S j)). }
  destruct o as [c|]; cbn; [|done].
  unfold count_cells in *. cbn.
  rewrite bool_decide_false; [done|]. by apply (H 0).
Qed.

Lemma static_admin_owns_one g : static_grid_ok g → owned "admin" g = 1.
Proof.
  intros [H0 Hd]. unfold owned, arr_present.
  destruct (elems g) as [|o rest] eqn:Hg; [done|].
  cbn in H0. injection H0 as ->.
  change (omap (λ o, o) (Some admin_square :: rest))
    with (admin_square :: omap (λ o, o) rest).
  cbn [List.filter]. rewrite bool_decide_true by done. cbn [length]. f_equal.
  apply (unowned_cells "admin" rest).
  intros j c Hj Hown. by specialize (Hd (S j) c Hj Hown).
Qed.

Lemma static_read_score_admin (m : gmap string nat) g :
  default 0 (m !! "admin") = 0 → static_grid_ok g →
  StaticAdmin.read_score (tally m g) StaticAdmin.adminPlayer = StaticAdmin.adminPlayer.
Proof.
  intros Hm Hg. unfold StaticAdmin.read_score, tally.
  change (StaticAdmin.Player.id StaticAdmin.adminPlayer) with "admin".
  rewrite tally_lookup by done. rewrite Hm.
  change (count_cells "admin" (arr_present g)) with (owned "admin" g).
  by rewrite static_admin_owns_one.
Qed.

Lemma static_zero_scores_lookup (ps : list StaticAdmin.Player.t) (i : string) :
  default 0 (StaticAdmin.zero_scores ps !! i) = 0.
Proof.
  unfold StaticAdmin.zero_scores.
  assert (∀ m : gmap string nat, default 0 (m !! i) = 0 →
    default 0 (foldl (λ scores p, <[StaticAdmin.Player.id p := 0]> scores) m ps !! i) = 0)
    as H.
  { induction ps as [|p ps IH]; intros m Hm; cbn; [done|].
    apply IH. destruct (decide (StaticAdmin.Player.id p = i)) as [->|Hne].
    - by rewrite lookup_insert_eq.
    - by rewrite lookup_insert_ne. }
  apply H. by rewrite lookup_empty.
Qed.

Lemma static_grid_set k v g :
  k ≠ 0%Z → Cell.ownerId v ≠ "admin" → static_grid_ok g →
  static_grid_ok (arr_set k v g).
Proof.
  intros Hk Hv [H0 Hd]. unfold arr_set, is_index.
  destruct (bool_decide (0 ≤ k)%Z) eqn:Hpos; cbn [andb]; [|done].
  destruct (bool_decide (k < 2 ^ 32 - 1)%Z); [|done].
  apply bool_decide_eq_true in Hpos.
  assert (Z.to_nat k ≠ 0) as Hn by lia.
  case_bool_decide as Hlt; split; cbn.
  - by rewrite list_lookup_insert_ne.
  - intros j c [(<- & [= <-] & _)|[_ Hc]]%list_lookup_insert_Some; [done|eauto].
  - by apply lookup_app_l_Some.
  - intros j c [Hc|[Hle [Hc|[Hle' Hc]]%lookup_app_Some]]%lookup_app_Some; [eauto|..].
    + by apply lookup_replicate_1 in Hc as [? _].
    + by apply list_lookup_singleton_Some in Hc as [_ [= <-]].
Qed.

Lemma static_grid_reset g :
  (∃ c, elems g !! 0 = Some (Some c)) →
  static_grid_ok (arr_map StaticAdmin.reset_square g).
Proof.
  intros [c0 H0]. split; cbn.
  - by rewrite list_lookup_imap, H0.
  - intros j c. rewrite list_lookup_imap.
    destruct (elems g !! j) as [[sq|]|]; cbn; [|done..]. intros [= <-].
    unfold StaticAdmin.reset_square. by case_bool_decide.
Qed.

Lemma static_calculateScores_inv s :
  static_inv s → static_inv (StaticAdmin.calculateScores s).1.
Proof.
  intros [[rest Hps] Hg]. split; cbn; [|done].
  rewrite Hps, fmap_cons, static_read_score_admin by done. eauto.
Qed.

Lemma static_startGameTimer_inv s :
  static_inv s → static_inv (StaticAdmin.startGameTimer s).1.
Proof.
  intros [[rest Hps] [H0 Hd]]. split; cbn -[arr_map].
  - rewrite Hps. cbn. eauto.
  - apply static_grid_reset. eauto.
Qed.

Lemma static_endGame_inv s :
  static_inv s → static_inv (StaticAdmin.endGame s).1.
Proof.
  intros [[rest Hps] Hg]. split; cbn; [|done].
  rewrite Hps, fmap_cons, static_read_score_admin; [eauto| |done].
  apply static_zero_scores_lookup.
Qed.

Lemma static_joinGame_inv socket data s :
  static_inv s → static_inv (StaticAdmin.joinGame socket data s).1.
Proof.
  intros Hinv. unfold StaticAdmin.joinGame. destruct (List.find _ _); [done|].
  destruct (bool_decide _); [done|].
  match goal with
  | |- context [StaticAdmin.set_players (_ ++ [?np]) _] => set (newPlayer := np)
  end.
  set (s1 := StaticAdmin.set_nextRef (S (StaticAdmin.nextRef s))
               (StaticAdmin.set_players (StaticAdmin.players s ++ [newPlayer]) s)).
  change (static_inv (StaticAdmin.calculateScores
    (when (λ s, is_null (StaticAdmin.gameInterval s)) StaticAdmin.startGameTimer s1).1).1).
  apply static_calculateScores_inv.
  assert (static_inv s1) as H1.
  { destruct Hinv as [[rest Hps] Hg]. split; [|done]. cbn. rewrite Hps. cbn. eauto. }
  unfold when. destruct (is_null _); [|done]. by apply static_startGameTimer_inv.
Qed.

Lemma static_claimSquare_inv socket squareId s :
  valid_id (socket_id socket) → static_inv s →
  static_inv (StaticAdmin.claimSquare socket squareId s).1.
Proof.
  intros [_ Hv] Hinv. unfold StaticAdmin.claimSquare.
  destruct (_ || _) eqn:Hguard; [done|].
  apply orb_false_iff in Hguard as [_ Hz]. apply bool_decide_eq_false in Hz.
  destruct (List.find _ _) as [player|] eqn:Hfind; [|done].
  apply find_some in Hfind as [_ Hid]. apply bool_decide_eq_true in Hid.
  set (cell := Cell.mk squareId (StaticAdmin.Player.color player)
                 (StaticAdmin.Player.id player) (StaticAdmin.Player.name player)).
  change (static_inv (StaticAdmin.calculateScores
    (StaticAdmin.set_grid (arr_set squareId cell (StaticAdmin.grid s)) s)).1).
  apply static_calculateScores_inv. destruct Hinv as [Hps Hg]. split; [done|].
  cbn -[arr_set]. apply static_grid_set; [done| |done]. cbn. congruence.
Qed.

Lemma static_disconnect_players socket s rest :
  valid_id (socket_id socket) →
  StaticAdmin.players s = StaticAdmin.adminPlayer :: rest →
  (StaticAdmin.disconnect socket s).1 =
  (StaticAdmin.calculateScores
     (StaticAdmin.set_players
        (StaticAdmin.adminPlayer ::
         List.filter (λ player,
            negb (bool_decide (StaticAdmin.Player.id player = socket_id socket))) rest)
        s)).1.
Proof.
  intros [_ Hv] Hps. unfold StaticAdmin.disconnect, andThen at 1 2, ifElse.
  cbn -[arr_map StaticAdmin.calculateScores]. rewrite Hps. cbn [List.filter].
  rewrite (bool_decide_false (StaticAdmin.Player.id StaticAdmin.adminPlayer = _))
    by (cbn; congruence).
  reflexivity.
Qed.

Lemma static_disconnect_inv socket s :
  valid_id (socket_id socket) → static_inv s →
  static_inv (StaticAdmin.disconnect socket s).1.
Proof.
  intros Hv [[rest Hps] Hg]. rewrite (static_disconnect_players socket s rest) by done.
  apply static_calculateScores_inv. split; [|done]. cbn. eauto.
Qed.

Lemma static_tick_inv h s : static_inv s → static_inv (StaticAdmin.tick h s).1.
Proof.
  intros Hinv. unfold StaticAdmin.tick.
  destruct (timer_kind h (StaticAdmin.timers s)) as [[]|]; [| |done].
  - unfold StaticAdmin.gameTick, andThen, ifElse. cbn -[StaticAdmin.endGame].
    destruct (bool_decide _); [|done]. by apply static_endGame_inv.
  - unfold StaticAdmin.countdownTick, andThen, when.
    cbn -[StaticAdmin.startGameTimer].
    destruct (bool_decide _); [|done]. by apply static_startGameTimer_inv.
Qed.

Lemma static_step_inv e s :
  static_valid e → static_inv s → static_inv (StaticAdmin.step e s).1.
Proof.
  destruct e as [socket|socket data|socket squareId|socket|h]; cbn; intros Hv Hinv.
  - done.
  - by apply static_joinGame_inv.
  - by apply static_claimSquare_inv.
  - by apply static_disconnect_inv.
  - by apply static_tick_inv.
Qed.

Lemma static_run_inv es s :
  Forall static_valid es → static_inv s → static_inv (StaticAdmin.run es s).
Proof.
  intros Hes. revert s. induction Hes as [|e es He _ IH]; intros s Hinv; [done|].
  cbn. apply IH. by apply static_step_inv.
Qed.

Lemma static_initial_inv : static_inv StaticAdmin.initial_state.
Proof.
  split; [by exists []|]. split; [done|].
  intros j c Hj Hown. destruct j as [|j]; [done|]. exfalso.
  cbn in Hj. unfold arr_set in Hj. cbn -[replicate] in Hj.
  change (imap ((λ i _, Some (blank i)) ∘ S) (replicate 99 ()) !! j = Some (Some c)) in Hj.
  rewrite list_lookup_imap in Hj.
  destruct (replicate 99 () !! j); cbn in Hj; [|done].
  by injection Hj as <-.
Qed.



Lemma length_toLowerCase x : String.length (toLowerCase x) = String.length x.
Proof. induction x as [|c x IH]; cbn; [done|]. by rewrite IH. Qed.

(** A name that reads [admin] after the cut to 15 characters read [admin]
    before. *)
Lemma lower_substring_admin x :
  toLowerCase (String.substring 0 15 x) = "admin" → toLowerCase x = "admin".
Proof.
  intros H. rewrite substring_short in H; [done|].
  apply (f_equal String.length) in H.
  rewrite length_toLowerCase, length_substring_0 in H.
  change (String.length "admin") with 5 in H. lia.
Qed.

Lemma static_names_same s s' :
  (∀ p, p ∈ StaticAdmin.players s' →
     ∃ q, q ∈ StaticAdmin.players s ∧
       StaticAdmin.Player.name p = StaticAdmin.Player.name q ∧
       StaticAdmin.Player.isAdmin p = StaticAdmin.Player.isAdmin q ∧
       StaticAdmin.Player.id p = StaticAdmin.Player.id q) →
  static_names_ok s → static_names_ok s'.
Proof.
  intros Hsame Hok p Hp Hlow. destruct (Hsame p Hp) as (q & Hq & Hn & Ha & Hi).
  rewrite Hn in *. rewrite Ha, Hi. by apply Hok.
Qed.

Lemma static_names_calculateScores s :
  static_names_ok s → static_names_ok (StaticAdmin.calculateScores s).1.
Proof.
  apply static_names_same. cbn. intros p (q & -> & Hq)%list_elem_of_fmap. eauto.
Qed.

Lemma static_names_startGameTimer s :
  static_names_ok s → static_names_ok (StaticAdmin.startGameTimer s).1.
Proof.
  apply static_names_same. cbn. intros p (q & -> & Hq)%list_elem_of_fmap.
  exists q. unfold StaticAdmin.reset_score.
  by destruct (StaticAdmin.Player.isAdmin q) eqn:Hadm.
Qed.

Lemma static_names_endGame s :
  static_names_ok s → static_names_ok (StaticAdmin.endGame s).1.
Proof.
  apply static_names_same. cbn. intros p (q & -> & Hq)%list_elem_of_fmap. eauto.
Qed.

Lemma static_names_joinGame socket data s :
  static_names_ok s → static_names_ok (StaticAdmin.joinGame socket data s).1.
Proof.
  intros Hok. unfold StaticAdmin.joinGame. destruct (List.find _ _); [done|].
  case_bool_decide as Hlow; [done|].
  match goal with
  | |- context [StaticAdmin.set_players (_ ++ [?np]) _] => set (newPlayer := np)
  end.
  set (s1 := StaticAdmin.set_nextRef (S (StaticAdmin.nextRef s))
               (StaticAdmin.set_players (StaticAdmin.players s ++ [newPlayer]) s)).
  change (static_names_ok (StaticAdmin.calculateScores
    (when (λ s, is_null (StaticAdmin.gameInterval s)) StaticAdmin.startGameTimer s1).1).1).
  apply static_names_calculateScores.
  assert (static_names_ok s1) as H1.
  { intros p [Hp|Hp%list_elem_of_singleton]%elem_of_app; [by apply Hok|].
    subst p. by intros Hp%lower_substring_admin. }
  unfold when. destruct (is_null _); [|done]. by apply static_names_startGameTimer.
Qed.

Lemma static_names_claimSquare socket squareId s :
  static_names_ok s → static_names_ok (StaticAdmin.claimSquare socket squareId s).1.
Proof.
  intros Hok. unfold StaticAdmin.claimSquare. destruct (_ || _); [done|].
  destruct (List.find _ _) as [player|]; [|done].
  set (cell := Cell.mk squareId (StaticAdmin.Player.color player)
                 (StaticAdmin.Player.id player) (StaticAdmin.Player.name player)).
  change (static_names_ok (StaticAdmin.calculateScores
    (StaticAdmin.set_grid (arr_set squareId cell (StaticAdmin.grid s)) s)).1).
  by apply static_names_calculateScores.
Qed.

Lemma static_names_disconnect socket s :
  static_names_ok s → static_names_ok (StaticAdmin.disconnect socket s).1.
Proof.
  intros Hok.
  set (s1 := StaticAdmin.set_players
               (List.filter (λ player,
                  negb (bool_decide (StaticAdmin.Player.id player = socket_id socket)))
                  (StaticAdmin.players s)) s).
  assert (static_names_ok s1) as H1.
  { intros p Hp. apply Hok. cbn in Hp.
    apply list_elem_of_In, filter_In in Hp as [Hp _]. by apply list_elem_of_In. }
  destruct (bool_decide (length (StaticAdmin.players s1) = 0)) eqn:Hlen.
  - assert (StaticAdmin.players (StaticAdmin.disconnect socket s).1 = []) as Hp.
    { unfold StaticAdmin.disconnect, andThen at 1 2, ifElse. cbn -[arr_map].
      unfold s1 in Hlen. cbn [StaticAdmin.players StaticAdmin.set_players] in Hlen.
      rewrite Hlen. cbn -[arr_map].
      by apply bool_decide_eq_true, nil_length_inv in Hlen. }
    intros p. rewrite Hp. by intros ?%elem_of_nil.
  - assert ((StaticAdmin.disconnect socket s).1 = (StaticAdmin.calculateScores s1).1)
      as ->.
    { unfold StaticAdmin.disconnect, andThen at 1 2, ifElse.
      cbn -[arr_map StaticAdmin.calculateScores].
      unfold s1 in Hlen. cbn [StaticAdmin.players StaticAdmin.set_players] in Hlen.
      rewrite Hlen. reflexivity. }
    by apply static_names_calculateScores.
Qed.

Lemma static_names_tick h s :
  static_names_ok s → static_names_ok (StaticAdmin.tick h s).1.
Proof.
  intros Hok. unfold StaticAdmin.tick.
  destruct (timer_kind h (StaticAdmin.timers s)) as [[]|]; [| |done].
  - unfold StaticAdmin.gameTick, andThen, ifElse. cbn -[StaticAdmin.endGame].
    destruct (bool_decide _); [|done]. by apply static_names_endGame.
  - unfold StaticAdmin.countdownTick, andThen, when.
    cbn -[StaticAdmin.startGameTimer].
    destruct (bool_decide _); [|done]. by apply static_names_startGameTimer.
Qed.

Lemma static_names_run es s :
  static_names_ok s → static_names_ok (StaticAdmin.run es s).
Proof.
  revert s. induction es as [|e es IH]; intros s Hok; [done|].
  cbn. apply IH.
  destruct e as [socket|socket data|socket squareId|socket|h]; cbn.
  - done.
  - by apply static_names_joinGame.
  - by apply static_names_claimSquare.
  - by apply static_names_disconnect.
  - by apply static_names_tick.
Qed.

Lemma static_names_initial : static_names_ok StaticAdmin.initial_state.
Proof. intros p Hp%list_elem_of_singleton _. by subst p. Qed.

(** X17. In the variant no player joins under a name that reads [admin]
    in any letter case: whatever the events, an entry of the roster whose
    name is [admin] up to case is the fixed admin entry, with the name
    [Admin], the id [admin] and the admin flag. *)
Theorem static_admin_name_reserved es p :
  p ∈ StaticAdmin.players (StaticAdmin.run es StaticAdmin.initial_state) →
  toLowerCase (StaticAdmin.Player.name p) = "admin" →
  StaticAdmin.Player.isAdmin p = true ∧ StaticAdmin.Player.name p = "Admin" ∧
  StaticAdmin.Player.id p = "admin".
Proof.
  apply (static_names_run es StaticAdmin.initial_state static_names_initial).
Qed.

Lemma static_admin_name_reserved_witness :
  StaticAdmin.adminPlayer ∈ StaticAdmin.players static_one_player ∧
  StaticAdmin.Player.id StaticAdmin.adminPlayer = "admin".
Proof.
  assert (StaticAdmin.adminPlayer ∈
          StaticAdmin.players (StaticAdmin.run static_bob_joins StaticAdmin.initial_state))
    as H by (vm_compute; apply list_elem_of_here).
  split; [exact H|].
  exact (proj2 (proj2 (static_admin_name_reserved static_bob_joins
                         StaticAdmin.adminPlayer H eq_refl))).
Defined.

(** X18. In the variant a join request whose name reads [admin] never
    changes the state and always fails: with the message for the reserved
    name, unless the name is exactly [Admin]. *)
Theorem static_joinGame_admin_refused es socket data :
  toLowerCase (data_name data) = "admin" →
  let s := StaticAdmin.run es StaticAdmin.initial_state in
  ∃ m, StaticAdmin.joinGame socket data s =
         (s, [StaticAdmin.Callback {| success := false; message := Some m |}]) ∧
       (data_name data ≠ "Admin" → m = StaticAdmin.name_reserved).
Proof.
  intros Hlow s. unfold StaticAdmin.joinGame.
  destruct (List.find _ _) as [p|] eqn:Hfind.
  - exists name_taken. split; [done|]. intros Hne.
    apply find_some in Hfind as [Hp%list_elem_of_In Hname].
    apply bool_decide_eq_true in Hname.
    destruct (static_names_run es StaticAdmin.initial_state static_names_initial p Hp)
      as (_ & Hn & _); congruence.
  - rewrite bool_decide_true by done. eauto.
Qed.

Lemma static_joinGame_admin_refused_witness :
  StaticAdmin.joinGame sockC {| data_name := "ADMIN"; data_color := "#0000ff" |}
    static_one_player =
  (static_one_player,
   [StaticAdmin.Callback {| success := false; message := Some StaticAdmin.name_reserved |}]).
Proof.
  destruct (static_joinGame_admin_refused static_bob_joins sockC
              {| data_name := "ADMIN"; data_color := "#0000ff" |} eq_refl)
    as (m & Hj & Hm).
  rewrite (Hm ltac:(discriminate)) in Hj. exact Hj.
Defined.

Lemma static_round_goes_on e s :
  static_valid e → static_inv s → StaticAdmin.gameInterval s ≠ None →
  StaticAdmin.gameInterval (StaticAdmin.step e s).1 ≠ None.
Proof.
  intros Hv Hinv Hg.
  destruct e as [socket|socket data|socket squareId|socket|h]; cbn [StaticAdmin.step].
  - done.
  - unfold StaticAdmin.joinGame. destruct (List.find _ _); [done|].
    destruct (bool_decide _); [done|].
    unfold andThen, when. cbn.
    destruct (StaticAdmin.gameInterval s) eqn:E; [cbn; by rewrite E|done].
  - unfold StaticAdmin.claimSquare. destruct (_ || _); [done|].
    by destruct (List.find _ _).
  - destruct Hinv as [[rest Hps] _].
    by rewrite (static_disconnect_players socket s rest).
  - unfold StaticAdmin.tick.
    destruct (timer_kind h (StaticAdmin.timers s)) as [[]|]; [| |done].
    + unfold StaticAdmin.gameTick, andThen, ifElse. cbn. by destruct (bool_decide _).
    + unfold StaticAdmin.countdownTick, andThen, when. cbn.
      by destruct (bool_decide _).
Qed.

Lemma static_run_goes_on es s :
  Forall static_valid es → static_inv s → StaticAdmin.gameInterval s ≠ None →
  StaticAdmin.gameInterval (StaticAdmin.run es s) ≠ None.
Proof.
  intros Hes. revert s. induction Hes as [|e es He _ IH]; intros s Hinv Hg; [done|].
  cbn. apply IH; [by apply static_step_inv|by apply static_round_goes_on].
Qed.

(** X19. In the variant a round, once started, is never stopped: as no
    connection has the id of the fixed admin entry, a disconnect never
    empties the roster, so the reset of the disconnect handler is not
    reached and [gameInterval] holds a handle for ever, also after the last
    player has left. *)
Theorem static_round_never_stops es es' :
  Forall static_valid (es ++ es') →
  StaticAdmin.gameInterval (StaticAdmin.run es StaticAdmin.initial_state) ≠ None →
  StaticAdmin.gameInterval (StaticAdmin.run (es ++ es') StaticAdmin.initial_state) ≠ None ∧
  StaticAdmin.players (StaticAdmin.run (es ++ es') StaticAdmin.initial_state) ≠ [].
Proof.
  intros Hes Hg. pose proof Hes as [H1 H2]%Forall_app.
  split.
  - unfold StaticAdmin.run. rewrite foldl_app.
    apply static_run_goes_on; [done| |done].
    by apply static_run_inv; [|apply static_initial_inv].
  - destruct (static_run_inv (es ++ es') StaticAdmin.initial_state Hes
                static_initial_inv) as [[rest ->] _]. done.
Qed.

Lemma static_round_never_stops_witness :
  Forall static_valid (static_bob_joins ++ [StaticAdmin.Disconnect sockB]) ∧
  StaticAdmin.gameInterval static_one_player ≠ None ∧
  StaticAdmin.gameInterval
    (StaticAdmin.run (static_bob_joins ++ [StaticAdmin.Disconnect sockB])
       StaticAdmin.initial_state) ≠ None.
Proof.
  assert (Forall static_valid (static_bob_joins ++ [StaticAdmin.Disconnect sockB])) as H.
  { repeat constructor; discriminate. }
  assert (StaticAdmin.gameInterval
            (StaticAdmin.run static_bob_joins StaticAdmin.initial_state) ≠ None) as Hg.
  { vm_compute. discriminate. }
  split; [exact H|]. split; [exact Hg|].
  exact (proj1 (static_round_never_stops static_bob_joins
                  [StaticAdmin.Disconnect sockB] H Hg)).
Defined.



